(** * json-notify: a shallow embedding of the change-detection pipeline

    The development follows the layout of the repository:
    - [Js]: the JavaScript values the modules exchange (JSON trees, thrown
      values, completions, diff segments, summary results);
    - [Escape]: [escapeMarkdownV2] of [src/notifier.ts];
    - [Eff]: sequential code with module variables, exceptions and a trace;
    - [Notifier]: [src/notifier.ts] (lazy bot initialisation, sending);
    - [Comparer]: [src/comparer.ts];
    - [AiProcessor]: [src/aiProcessor.ts];
    - [Storage]: [src/storage.ts];
    - [Json]: the JSON text [src/storage.ts] writes and reads;
    - [Orchestrator]: [src/index.ts] ([checkJsonUpdates] and its run guard);
    - [Fetcher]: [src/fetcher.ts]; [ConfigLoader]: [src/config.ts];
      [Main]: [src/index.ts] ([main]).

    The packages the modules call ([diff], [fast-json-stable-stringify],
    [zod], the AI SDK, [node-telegram-bot-api], [fs], [JSON]) are parameters
    of the sections that use them, or small models next to their callers.

    A JavaScript string is a [string] of the Standard Library, one [ascii]
    per code unit. *)

From Stdlib Require Import Strings.String Strings.Ascii List Bool Arith Lia.
From Stdlib Require Import Sorting.Permutation Sorting.Sorted.
From stdpp Require Import base option list strings pretty sorting gmap.

Import ListNotations.
Set Warnings "-register-all".
Local Open Scope string_scope.
Local Open Scope list_scope.

(** ** JavaScript values shared by the modules *)

Module Js.

(** The numbers a JSON text cannot carry back: [-0], which [JSON.parse]
    reads from [-0], and the infinities, which it reads from a literal beyond
    the range of a double ([1e999], [-1e999]). *)
Inductive Special : Type := NegativeZero | PositiveInfinity | NegativeInfinity.

(** A JSON tree, as [response.json()] and [JSON.parse] build it.  The fields
    of an object are kept in the order the object enumerates them; a number
    is an integer ([JNumber]; the model has no fractions) or one of the
    special values ([JSpecial]). *)
Inductive JsValue : Type :=
| JNull
| JBool (b : bool)
| JNumber (n : Z)
| JSpecial (x : Special)
| JString (s : string)
| JArray (items : list JsValue)
| JObject (fields : list (string * JsValue)).

(** [typeof v !== 'object' || v === null] is false: arrays and objects. *)
Definition is_object (v : JsValue) : bool :=
  match v with
  | JArray _ | JObject _ => true
  | _ => false
  end.

Definition is_null (v : JsValue) : bool :=
  match v with
  | JNull => true
  | _ => false
  end.

(** Property read [obj[key]] on an object; [None] is [undefined]. *)
Fixpoint get_field (key : string) (fields : list (string * JsValue)) : option JsValue :=
  match fields with
  | [] => None
  | (k, v) :: rest => if String.eqb k key then Some v else get_field key rest
  end.

(** A thrown (or rejected) value, seen through what the program reads of
    it: [instanceof Error], [.message], [.stack], [.code] and [String(_)].
    [None] is a missing property; the value itself is not [null] or
    [undefined] (the providers reject with [Error] objects; where the
    program reads a property of a rejection reason unguarded, in
    [Notifier.Settled], the two are told apart). *)
Record Thrown : Type := mkThrown {
  is_error : bool;
  message : option string;
  stack : option string;
  code : option string;
  to_string : string
}.

(** [new Error(msg)]. *)
Definition new_Error (msg : string) : Thrown :=
  {| is_error := true; message := Some msg; stack := Some ("Error: " +:+ msg);
     code := None; to_string := "Error: " +:+ msg |}.

(** JavaScript truthiness of an optional string property. *)
Definition truthy (o : option string) : bool :=
  match o with
  | Some s => negb (String.eqb s "")
  | None => false
  end.

Inductive Completion (A : Type) : Type :=
| Returns (a : A)
| Throws (t : Thrown).
Arguments Returns {A} a.
Arguments Throws {A} t.

(** One segment of the [diff] package's result. *)
Record Change : Type := mkChange {
  value : string;
  added : bool;
  removed : bool;
  count : option nat
}.

(** [part.added || part.removed] *)
Definition is_actual (c : Change) : bool := added c || removed c.

(** [ChangeSummaryResult], the type inferred from [ChangeSummarySchema]. *)
Record ChangeSummaryResult : Type := mkSummary {
  isWorthToReport : bool;
  reportedChanges : string
}.

(** [src/config.ts]: the fields of [config]. *)
Record Config : Type := mkConfig {
  jsonUrl : string;
  openaiApiKey : string;
  openaiModelName : string;
  openaiCustomPromptContext : string;
  telegramBotToken : string;
  telegramChatId : string;
  checkIntervalCron : string;
  telegramNotifyOnStart : bool;
  stateFilePath : string
}.

(** Console output. *)
Inductive Level : Type := LogLevel | WarnLevel | ErrorLevel.

Inductive LogArg : Type :=
| Text (s : string)
| Value (t : Thrown).

Definition nl : string := String (ascii_of_nat 10) EmptyString.
Definition dq : string := String (ascii_of_nat 34) EmptyString.

(** [s.substring(0, n)] *)
Definition substring0 (n : nat) (s : string) : string := String.substring 0 n s.

(** [String.prototype.trim] on the white space of the Latin-1 range. *)
Definition is_space (c : ascii) : bool :=
  let n := nat_of_ascii c in
  (Nat.leb 9 n && Nat.leb n 13) || Nat.eqb n 32 || Nat.eqb n 160.

Fixpoint trim_start (l : list ascii) : list ascii :=
  match l with
  | c :: rest => if is_space c then trim_start rest else l
  | [] => []
  end.

Definition trim (s : string) : string :=
  string_of_list_ascii
    (rev (trim_start (rev (trim_start (list_ascii_of_string s))))).

End Js.

(** ** MarkdownV2 escaping ([src/notifier.ts], [escapeMarkdownV2]) *)

Module Escape.

(** The character class of the regular expression
    [/(?<!\\)([\_*[\]()~`>#+\-=|{}.!])/g]. *)
Definition reserved : list ascii :=
  ["_"; "*"; "["; "]"; "("; ")"; "~"; "`"; ">"; "#"; "+"; "-"; "="; "|";
   "{"; "}"; "."; "!"]%char.

Definition in_class (c : ascii) : bool := existsb (Ascii.eqb c) reserved.

Definition backslash : ascii := "\"%char.

(** The negative lookbehind [(?<!\\)]: it inspects the code unit of the
    subject string just before the position of the match ([None] at the
    start of the subject). *)
Definition lookbehind_ok (before : option ascii) : bool :=
  match before with
  | Some b => negb (Ascii.eqb b backslash)
  | None => true
  end.

(** [String.prototype.replace] with the global regular expression above and
    the replacement ['\\$1']: the subject is scanned from left to right;
    the pattern consumes one code unit, so matches never overlap, and the
    lookbehind reads the subject, not the output. *)
Fixpoint replace_all (before : option ascii) (text : string) : string :=
  match text with
  | EmptyString => EmptyString
  | String c rest =>
      if lookbehind_ok before && in_class c
      then String backslash (String c (replace_all (Some c) rest))
      else String c (replace_all (Some c) rest)
  end.

Definition escapeMarkdownV2 (text : string) : string := replace_all None text.

(** *** The escaping as the specification words it

    "… except where a character is already preceded by an unescaped
    backslash": a backslash is unescaped when it is not itself the second
    half of an escape.  [esc] records whether the code unit just read is an
    unescaped backslash. *)
Fixpoint escape_unescaped_from (esc : bool) (text : string) : string :=
  match text with
  | EmptyString => EmptyString
  | String c rest =>
      let esc' := if Ascii.eqb c backslash then negb esc else false in
      if negb esc && in_class c
      then String backslash (String c (escape_unescaped_from esc' rest))
      else String c (escape_unescaped_from esc' rest)
  end.

Definition escape_unescaped (text : string) : string :=
  escape_unescaped_from false text.

(** *** The escaping by position

    The code unit at index [i] is escaped exactly when it is reserved and
    the code unit at index [i-1] of the input, if any, is not a backslash
    (whether or not that backslash is itself escaped). *)
Definition preceded_by_backslash (text : string) (i : nat) : bool :=
  match i with
  | O => false
  | S j => match String.get j text with
           | Some b => Ascii.eqb b backslash
           | None => false
           end
  end.

Definition piece (text : string) (i : nat) : string :=
  match String.get i text with
  | Some c =>
      if negb (preceded_by_backslash text i) && in_class c
      then String backslash (String c EmptyString)
      else String c EmptyString
  | None => EmptyString
  end.

Definition escape_by_position (text : string) : string :=
  fold_right String.append "" (map (piece text) (seq 0 (String.length text))).

(** The last code unit of the text read so far ([before] if there is none). *)
Fixpoint last_unit (before : option ascii) (pre : string) : option ascii :=
  match pre with
  | EmptyString => before
  | String c rest => last_unit (Some c) rest
  end.

End Escape.

(** ** Sequential effects: module variables, thrown values, observable events

    An operation reads and writes the module-level variables [S], may throw,
    and leaves a trace of events [E].  [try_catch] is [try { … } catch (error)
    { … }]: what the body did before it threw is kept. *)

Module Eff.
Import Js.

Section Monad.
Context {S E : Type}.

Definition M (A : Type) : Type := S -> Completion A * S * list E.

Definition ret {A} (a : A) : M A := fun s => (Returns a, s, []).

Definition throw {A} (t : Thrown) : M A := fun s => (Throws t, s, []).

Definition bind {A B} (m : M A) (k : A -> M B) : M B :=
  fun s =>
    match m s with
    | (Returns a, s1, t1) =>
        match k a s1 with
        | (r, s2, t2) => (r, s2, t1 ++ t2)
        end
    | (Throws t, s1, t1) => (Throws t, s1, t1)
    end.

Definition try_catch {A} (body : M A) (handler : Thrown -> M A) : M A :=
  fun s =>
    match body s with
    | (Returns a, s1, t1) => (Returns a, s1, t1)
    | (Throws t, s1, t1) =>
        match handler t s1 with
        | (r, s2, t2) => (r, s2, t1 ++ t2)
        end
    end.

Definition emit (e : E) : M unit := fun s => (Returns tt, s, [e]).

Definition get : M S := fun s => (Returns s, s, []).

Definition put (s' : S) : M unit := fun _ => (Returns tt, s', []).

(** The outcome of a call into a provider. *)
Definition settle {A} (c : Completion A) : M A := fun s => (c, s, []).

End Monad.

Arguments M : clear implicits.

Declare Scope eff_scope.
Delimit Scope eff_scope with eff.
Notation "x <- m ;; k" := (bind m (fun x => k))
  (at level 100, m at next level, right associativity) : eff_scope.
Notation "m ;; k" := (bind m (fun _ => k))
  (at level 100, right associativity) : eff_scope.

End Eff.

(** ** The Telegram notifier ([src/notifier.ts]) *)

Module Notifier.
Import Js Eff.
Local Open Scope eff_scope.

(** A [TelegramBot] instance, as far as the program is concerned: the token
    it was constructed with. *)
Record TelegramBot : Type := mkBot { bot_token : string }.

(** The module-level variables [botInstance], [botInitializationError] and
    [isBotInitialized]. *)
Record Vars : Type := mkVars {
  botInstance : option TelegramBot;
  botInitializationError : option Thrown;
  isBotInitialized : bool
}.

Definition initial : Vars :=
  {| botInstance := None; botInitializationError := None;
     isBotInitialized := false |}.

Definition set_botInstance (b : option TelegramBot) (v : Vars) : Vars :=
  {| botInstance := b; botInitializationError := botInitializationError v;
     isBotInitialized := isBotInitialized v |}.

Definition set_botInitializationError (e : option Thrown) (v : Vars) : Vars :=
  {| botInstance := botInstance v; botInitializationError := e;
     isBotInitialized := isBotInitialized v |}.

Definition set_isBotInitialized (b : bool) (v : Vars) : Vars :=
  {| botInstance := botInstance v;
     botInitializationError := botInitializationError v;
     isBotInitialized := b |}.

(** What the module does to the outside: console output and the two calls
    into [node-telegram-bot-api]. *)
Inductive Event : Type :=
| Console (level : Level) (args : list LogArg)
| Construct (token : string)
| SendMessage (chatId text parse_mode : string).

Definition console (level : Level) (args : list LogArg) : M Vars Event unit :=
  emit (Console level args).

Definition assign (f : Vars -> Vars) : M Vars Event unit :=
  v <- get;; put (f v).

(** What the promise of [bot.sendMessage] settles to.  A promise can be
    rejected with any value: with one that has properties to read
    ([Rejected]), or with [null] or [undefined] ([RejectedNullish]). *)
Inductive Nullish : Type := Null | Undefined.

Inductive Settled : Type :=
| Resolved
| Rejected (reason : Thrown)
| RejectedNullish (reason : Nullish).

(** The [TypeError] of a property read on [null] or [undefined]. *)
Definition read_of_nullish (reason : Nullish) (property : string) : Thrown :=
  let msg :=
    "Cannot read properties of "
    +:+ match reason with Null => "null" | Undefined => "undefined" end
    +:+ " (reading '" +:+ property +:+ "')" in
  {| is_error := true; message := Some msg; stack := Some ("TypeError: " +:+ msg);
     code := None; to_string := "TypeError: " +:+ msg |}.

Section WithProvider.
Variable config : Config.
(** [new TelegramBot(token)]: returns an instance or throws. *)
Variable construct : string -> Completion TelegramBot.
(** [bot.sendMessage(chatId, text, options)]: resolves or rejects. *)
Variable sendMessage : TelegramBot -> string -> string -> string -> Settled.

(** [config.telegramBotToken && config.telegramChatId] *)
Definition credentials_present : bool :=
  negb (String.eqb (telegramBotToken config) "")
  && negb (String.eqb (telegramChatId config) "").

(** [error instanceof Error ? error : new Error(String(error))] *)
Definition as_Error (error : Thrown) : Thrown :=
  if is_error error then error else new_Error (to_string error).

Definition getBotInstance : M Vars Event (option TelegramBot) :=
  vars <- get;;
  (if negb (isBotInitialized vars) then
     assign (set_isBotInitialized true);;
     try_catch
       (if credentials_present then
          emit (Construct (telegramBotToken config));;
          bot <- settle (construct (telegramBotToken config));;
          assign (set_botInstance (Some bot));;
          console LogLevel [Text "Telegram bot initialized on first use."]
        else
          console WarnLevel
            [Text "Telegram bot token or chat ID not provided. Telegram notifications disabled."])
       (fun error =>
          console ErrorLevel [Text "Failed to initialize Telegram bot:"; Value error];;
          assign (set_botInitializationError (Some (as_Error error)));;
          assign (set_botInstance None))
   else ret tt);;
  vars <- get;;
  ret (botInstance vars).

(** [error.message || error] *)
Definition message_or_self (error : Thrown) : LogArg :=
  if truthy (message error)
  then Text (default "" (message error))
  else Value error.

Definition sendTelegramNotification (text : string) : M Vars Event unit :=
  bot <- getBotInstance;;
  match bot with
  | None =>
      vars <- get;;
      let reason :=
        match botInitializationError vars with
        | Some _ => "bot failed to initialize"
        | None => "notifications are disabled"
        end in
      console LogLevel [Text ("Telegram " +:+ reason +:+ ". Skipping notification.")];;
      console LogLevel [Text ("[Telegram Notification Skipped]:" +:+ nl +:+ text)];;
      match botInitializationError vars with
      | Some e => console ErrorLevel [Text "Initialization error details:"; Value e]
      | None => ret tt
      end
  | Some b =>
      (* [try { … } catch (error: any) { … }]: in the [try] block only the
         awaited send can throw, so the [catch] block is what follows a
         rejection.  It first reads [error.message], which itself throws when
         the promise was rejected with [null] or [undefined]. *)
      console LogLevel
        [Text ("Sending notification to Telegram chat ID: " +:+ telegramChatId config)];;
      emit (SendMessage (telegramChatId config) text "MarkdownV2");;
      match sendMessage b (telegramChatId config) text "MarkdownV2" with
      | Resolved => console LogLevel [Text "Successfully sent notification to Telegram."]
      | Rejected error =>
          console ErrorLevel
            [Text "Error sending Telegram notification:"; message_or_self error];;
          console ErrorLevel [Text ("[Failed Telegram Message]:" +:+ nl +:+ text)]
      | RejectedNullish reason => throw (read_of_nullish reason "message")
      end
  end.

End WithProvider.

(** The state of the messaging client once a call has resolved it. *)
Inductive ClientState : Type := Ready | Disabled | FailedInit.

Definition client_state (vars : Vars) : ClientState :=
  match botInstance vars, botInitializationError vars with
  | Some _, _ => Ready
  | None, Some _ => FailedInit
  | None, None => Disabled
  end.

End Notifier.

(** ** The comparer ([src/comparer.ts]) *)

Module Comparer.
Import Js Eff.
Local Open Scope eff_scope.

(** [JSON.stringify] of a string: the quoted literal. *)
Definition hex_digit (n : nat) : ascii :=
  ascii_of_nat (if Nat.ltb n 10 then 48 + n else 87 + n).

Definition escape_unit (c : ascii) : string :=
  let n := nat_of_ascii c in
  if Nat.eqb n 34 then "\" +:+ dq
  else if Nat.eqb n 92 then "\\"
  else if Nat.eqb n 8 then "\b"
  else if Nat.eqb n 9 then "\t"
  else if Nat.eqb n 10 then "\n"
  else if Nat.eqb n 12 then "\f"
  else if Nat.eqb n 13 then "\r"
  else if Nat.ltb n 32 then
    "\u00" +:+ String (hex_digit (n / 16)) (String (hex_digit (n mod 16)) "")
  else String c "".

Fixpoint escape_units (s : string) : string :=
  match s with
  | EmptyString => EmptyString
  | String c rest => escape_unit c +:+ escape_units rest
  end.

Definition quote (s : string) : string := dq +:+ escape_units s +:+ dq.

(** The default comparison of [Array.prototype.sort] on two keys, lifted to
    the entries of an object. *)
Definition key_le (a b : string * string) : Prop :=
  String.leb (fst a) (fst b) = true.

Global Instance key_le_dec a b : Decision (key_le a b) :=
  decide (String.leb (fst a) (fst b) = true).

Definition member (entry : string * string) : string :=
  quote (fst entry) +:+ ":" +:+ snd entry.

(** Modelled from the spec: the package [fast-json-stable-stringify] is not
    part of the sources.  "Serialize both values using a canonical form with
    deterministic key ordering (object keys sorted, independent of insertion
    order)": the compact JSON text of the value, the members of every object
    in the order of their sorted keys. *)
Fixpoint stringify (v : JsValue) : string :=
  match v with
  | JNull => "null"
  | JBool true => "true"
  | JBool false => "false"
  | JNumber n => pretty n
  | JSpecial NegativeZero => "0"
  | JSpecial _ => "null"
  | JString s => quote s
  | JArray items =>
      "[" +:+ String.concat ","
                ((fix each (l : list JsValue) : list string :=
                    match l with
                    | [] => []
                    | x :: rest => stringify x :: each rest
                    end) items) +:+ "]"
  | JObject fields =>
      "{" +:+ String.concat ","
                (map member
                   (merge_sort key_le
                      ((fix each (l : list (string * JsValue)) : list (string * string) :=
                          match l with
                          | [] => []
                          | (k, x) :: rest => (k, stringify x) :: each rest
                          end) fields))) +:+ "}"
  end.

(** The key of a member of an object and the canonical text of its value. *)
Definition entry (f : string * JsValue) : string * string :=
  (fst f, stringify (snd f)).

Section WithDiff.
(** [diffJson] of the [diff] package: the segments of a line diff of the
    two pretty-printed documents, unchanged ones included. *)
Variable diffJson : JsValue -> JsValue -> list Change.

Definition log (text : string) : M unit (Level * list LogArg) unit :=
  emit (LogLevel, [Text text]).

Definition compareJson (oldState newState : JsValue)
  : M unit (Level * list LogArg) (option (list Change)) :=
  let oldString := stringify oldState in
  let newString := stringify newState in
  if String.eqb oldString newString then
    log "No changes detected in JSON data.";;
    ret None
  else
    log "Changes detected. Generating diff...";;
    let differences := diffJson oldState newState in
    let actualChanges := filter (fun part => is_actual part = true) differences in
    if Nat.eqb (List.length actualChanges) 0 then
      log "No changes detected in JSON data.";;
      ret None
    else ret (Some actualChanges).

End WithDiff.

(** The value a synchronous call hands back. *)
Definition outcome {E A} (m : M unit E A) : Completion A := fst (fst (m tt)).
Definition output {E A} (m : M unit E A) : list E := snd (m tt).

(** Two documents that differ only in the order in which the keys of their
    objects were inserted. *)
Inductive reordered : JsValue -> JsValue -> Prop :=
| reordered_null : reordered JNull JNull
| reordered_bool b : reordered (JBool b) (JBool b)
| reordered_number n : reordered (JNumber n) (JNumber n)
| reordered_special x : reordered (JSpecial x) (JSpecial x)
| reordered_string s : reordered (JString s) (JString s)
| reordered_array xs ys :
    Forall2 reordered xs ys -> reordered (JArray xs) (JArray ys)
| reordered_object fs gs hs :
    Forall2 (fun f g => fst f = fst g /\ reordered (snd f) (snd g)) fs gs ->
    Permutation gs hs ->
    reordered (JObject fs) (JObject hs).

(** A JavaScript object holds each key once. *)
Inductive well_formed : JsValue -> Prop :=
| wf_null : well_formed JNull
| wf_bool b : well_formed (JBool b)
| wf_number n : well_formed (JNumber n)
| wf_special x : well_formed (JSpecial x)
| wf_string s : well_formed (JString s)
| wf_array xs : Forall well_formed xs -> well_formed (JArray xs)
| wf_object fs :
    NoDup (map fst fs) ->
    Forall (fun f => well_formed (snd f)) fs ->
    well_formed (JObject fs).

End Comparer.

(** ** The summarizer ([src/aiProcessor.ts]) *)

Module AiProcessor.
Import Js Eff.
Local Open Scope eff_scope.

(** The argument of [generateObject]: the model named by the configuration,
    the two messages, the temperature (the literal [0.2]) and the mode. *)
Record Request : Type := mkRequest {
  model : string;
  system_content : string;
  user_content : string;
  temperature : string;
  mode : string
}.

Inductive Event : Type :=
| Console (level : Level) (args : list LogArg)
| GenerateObject (request : Request).

Definition console (level : Level) (args : list LogArg) : M unit Event unit :=
  emit (Console level args).

(** One issue of a failed [safeParse]. *)
Record Issue : Type := mkIssue {
  issue_code : string;
  issue_path : list string;
  issue_message : string
}.

(** [typeof]-like name of a value, as Zod reports it. *)
Definition parsed_type (v : option JsValue) : string :=
  match v with
  | None => "undefined"
  | Some JNull => "null"
  | Some (JBool _) => "boolean"
  | Some (JNumber _) => "number"
  | Some (JSpecial _) => "number"
  | Some (JString _) => "string"
  | Some (JArray _) => "array"
  | Some (JObject _) => "object"
  end.

Definition invalid_type (path : list string) (expected : string) (v : option JsValue) : Issue :=
  {| issue_code := "invalid_type"; issue_path := path;
     issue_message :=
       match v with
       | None => "Required"
       | Some _ => "Expected " +:+ expected +:+ ", received " +:+ parsed_type v
       end |}.

(** [ChangeSummarySchema.safeParse]: the schema is
    [z.object({ isWorthToReport: z.boolean(), reportedChanges: z.string() })];
    unknown keys are dropped, any string is accepted for [reportedChanges]. *)
Definition safeParse (object : JsValue) : ChangeSummaryResult + list Issue :=
  match object with
  | JObject fields =>
      let w := get_field "isWorthToReport" fields in
      let r := get_field "reportedChanges" fields in
      match w, r with
      | Some (JBool b), Some (JString text) =>
          inl {| isWorthToReport := b; reportedChanges := text |}
      | _, _ =>
          inr (match w with
               | Some (JBool _) => []
               | _ => [invalid_type ["isWorthToReport"] "boolean" w]
               end
               ++ match r with
                  | Some (JString _) => []
                  | _ => [invalid_type ["reportedChanges"] "string" r]
                  end)
      end
  | other => inr [invalid_type [] "object" (Some other)]
  end.

(** [formatDiffForAI] *)
Definition format_part (part : Change) : string :=
  (if added part then "[ADDED]" else "[REMOVED]") +:+ " " +:+ trim (value part) +:+ nl.

Fixpoint format_parts (parts : list Change) : string :=
  match parts with
  | [] => ""
  | part :: rest =>
      format_part part
      +:+ (match rest with
           | [] => ""
           | _ :: _ => "---" +:+ nl
           end)
      +:+ format_parts rest
  end.

Definition formatDiffForAI (changes : list Change) : string :=
  let filteredChanges := filter (fun part => is_actual part = true) changes in
  "Detected changes:" +:+ nl +:+ nl +:+ format_parts filteredChanges.

Definition maxDiffLength : nat := 3000.

Definition defaultErrorResult : ChangeSummaryResult :=
  {| isWorthToReport := false; reportedChanges := "Error generating change summary." |}.

Definition defaultNoChangesResult : ChangeSummaryResult :=
  {| isWorthToReport := false; reportedChanges := "No changes detected." |}.

Definition systemPrompt (customContext : string) : string :=
  "You are an assistant analyzing changes detected in a JSON object. Your goal is to provide a concise, human-readable summary of these changes and decide if they are significant enough to report based on specific criteria if provided.

Input Diff Format:
The diff shows changes using [ADDED] for new content and [REMOVED] for deleted content. Sections are separated by '---'.

Tasks:
1.  Analyze the provided diff carefully.
2.  Generate a concise, human-readable summary focusing on the key changes (`reportedChanges`). Ensure this summary is clear and informative.
3.  Evaluate if the changes are significant enough to warrant reporting (`isWorthToReport`).
    "
  +:+ (if negb (String.eqb customContext "")
       then "CRITERIA FOR SIGNIFICANCE: " +:+ dq +:+ customContext +:+ dq
            +:+ ". Determine if the detected changes meet these criteria. If they do, set `isWorthToReport` to true. If they do not, set it to false."
       else "Since no specific reporting criteria are provided, consider ANY detected changes significant enough to report. Set `isWorthToReport` to true.")
  +:+ "

Output Format:
Respond ONLY with a valid JSON object matching this schema:
{
  " +:+ dq +:+ "isWorthToReport" +:+ dq
  +:+ ": boolean, // True if changes are significant based on criteria (or always true if no criteria), false otherwise.
  " +:+ dq +:+ "reportedChanges" +:+ dq
  +:+ ": string  // The concise summary of changes. Provide this summary EVEN IF isWorthToReport is false.
}
Do not include any other text, explanations, or markdown formatting outside the JSON object.".

(** [null.filter(…)] *)
Definition TypeError (msg : string) : Thrown :=
  {| is_error := true; message := Some msg; stack := Some ("TypeError: " +:+ msg);
     code := None; to_string := "TypeError: " +:+ msg |}.

Section WithProvider.
Variable config : Config.
(** [generateObject] of the AI SDK with the OpenAI model: the [object] of its
    result, or what the call (or the construction of the model) threw. *)
Variable generateObject : Request -> Completion JsValue.
(** The [message] of a [ZodError]: a rendering of its issues. *)
Variable zod_message : list Issue -> string.

Definition ZodError (issues : list Issue) : Thrown :=
  {| is_error := true; message := Some (zod_message issues);
     stack := None; code := None; to_string := "ZodError: " +:+ zod_message issues |}.

(** [changes] is the argument as it arrives at run time: an array, or [null]
    (which the declared type [Change[]] excludes). *)
Definition generateChangeSummary (changes : option (list Change))
  : M unit Event ChangeSummaryResult :=
  actualChanges <-
    match changes with
    | Some array => ret (filter (fun c => is_actual c = true) array)
    | None => throw (TypeError "Cannot read properties of null (reading 'filter')")
    end;;
  if Nat.eqb (List.length actualChanges) 0 then ret defaultNoChangesResult
  else
    let formattedDiff := formatDiffForAI actualChanges in
    let truncatedDiff :=
      if Nat.ltb maxDiffLength (String.length formattedDiff)
      then substring0 maxDiffLength formattedDiff +:+ nl +:+ "... [diff truncated] ..."
      else formattedDiff in
    console LogLevel [Text "Generating summary and evaluating changes..."];;
    let prompt := systemPrompt (openaiCustomPromptContext config) in
    console LogLevel [Text ("Using System Prompt:" +:+ nl +:+ prompt)];;
    let request :=
      {| model := openaiModelName config; system_content := prompt;
         user_content := truncatedDiff; temperature := "0.2"; mode := "json" |} in
    try_catch
      (emit (GenerateObject request);;
       object <- settle (generateObject request);;
       console LogLevel [Text "Successfully generated structured summary from AI."];;
       match safeParse object with
       | inl data => ret data
       | inr issues =>
           console ErrorLevel
             [Text "AI response failed Zod validation:"; Value (ZodError issues)];;
           ret {| isWorthToReport := isWorthToReport defaultErrorResult;
                  reportedChanges :=
                    "Error: AI response did not match expected format. Details: "
                    +:+ zod_message issues +:+ ". "
                    +:+ reportedChanges defaultErrorResult |}
       end)
      (fun error =>
         console ErrorLevel
           [Text "Error generating structured summary from OpenAI:"; Value error];;
         ret defaultErrorResult).

(** The request [generateChangeSummary] builds for a list of added and
    removed segments, and the result it builds from the issues of a failed
    validation. *)
Definition request_for (actualChanges : list Change) : Request :=
  let formattedDiff := formatDiffForAI actualChanges in
  {| model := openaiModelName config;
     system_content := systemPrompt (openaiCustomPromptContext config);
     user_content :=
       if Nat.ltb maxDiffLength (String.length formattedDiff)
       then substring0 maxDiffLength formattedDiff +:+ nl +:+ "... [diff truncated] ..."
       else formattedDiff;
     temperature := "0.2"; mode := "json" |}.

Definition validation_failure (issues : list Issue) : ChangeSummaryResult :=
  {| isWorthToReport := false;
     reportedChanges :=
       "Error: AI response did not match expected format. Details: "
       +:+ zod_message issues +:+ ". Error generating change summary." |}.

End WithProvider.

(** Whether a trace holds a call of the AI collaborator. *)
Definition is_call (e : Event) : bool :=
  match e with
  | GenerateObject _ => true
  | Console _ _ => false
  end.

End AiProcessor.

(** ** The state store ([src/storage.ts]) *)

Module Storage.
Import Js Eff.
Local Open Scope eff_scope.

(** The part of the file system the module touches: the directories and
    files that exist, and the paths on which every operation is refused. *)
Record FileSystem : Type := mkFileSystem {
  directories : gset string;
  files : gmap string string;
  denied : gset string
}.

Inductive Event : Type :=
| Console (level : Level) (args : list LogArg)
| Access (path : string)
| Mkdir (path : string)
| ReadFile (path : string)
| WriteFile (path data : string).

Definition console (level : Level) (args : list LogArg) : M FileSystem Event unit :=
  emit (Console level args).

(** A Node.js system error: an [Error] with a [code]. *)
Definition errno (c : string) (path : string) : Thrown :=
  {| is_error := true; message := Some (c +:+ ": " +:+ path);
     stack := Some ("Error: " +:+ c +:+ ": " +:+ path);
     code := Some c; to_string := "Error: " +:+ c +:+ ": " +:+ path |}.

(** [fs.access(path)] *)
Definition access (path : string) : M FileSystem Event unit :=
  emit (Access path);;
  fs <- get;;
  if decide (path ∈ denied fs) then throw (errno "EACCES" path)
  else if decide (path ∈ directories fs) then ret tt
  else if decide (is_Some (files fs !! path)) then ret tt
  else throw (errno "ENOENT" path).

(** [fs.mkdir(path, { recursive: true })]: an existing directory is not an
    error.  The model records the directory asked for; the missing ancestors
    that are created with it are not tracked. *)
Definition mkdir (path : string) : M FileSystem Event unit :=
  emit (Mkdir path);;
  fs <- get;;
  if decide (path ∈ denied fs) then throw (errno "EACCES" path)
  else put {| directories := {[path]} ∪ directories fs; files := files fs;
              denied := denied fs |}.

(** [fs.readFile(path, 'utf-8')].  The model does not tell a parent that is
    a regular file ([ENOTDIR]) from a missing one ([ENOENT]). *)
Definition readFile (path : string) : M FileSystem Event string :=
  emit (ReadFile path);;
  fs <- get;;
  if decide (path ∈ denied fs) then throw (errno "EACCES" path)
  else if decide (path ∈ directories fs) then throw (errno "EISDIR" path)
  else match files fs !! path with
       | Some data => ret data
       | None => throw (errno "ENOENT" path)
       end.

Section WithPlatform.
Variable config : Config.
(** [path.dirname] *)
Variable dirname : string -> string.
(** [JSON.stringify(state, null, 2)] and [JSON.parse]. *)
Variable JSON_stringify : JsValue -> string.
Variable JSON_parse : string -> Completion JsValue.

(** [fs.writeFile(path, data, 'utf-8')]: the containing directory must
    exist.  In the model a write fails before the file is touched or replaces
    its content; a failure after the file was opened (a full disk) is not in
    it. *)
Definition writeFile (path data : string) : M FileSystem Event unit :=
  emit (WriteFile path data);;
  fs <- get;;
  if decide (path ∈ denied fs) then throw (errno "EACCES" path)
  else if decide (path ∈ directories fs) then throw (errno "EISDIR" path)
  else if decide (dirname path ∈ directories fs) then
    put {| directories := directories fs; files := <[path := data]> (files fs);
           denied := denied fs |}
  else throw (errno "ENOENT" path).

Definition is_ENOENT (error : Thrown) : bool :=
  match code error with
  | Some c => String.eqb c "ENOENT"
  | None => false
  end.

Definition ensureStateDirectoryExists : M FileSystem Event unit :=
  let dir := dirname (stateFilePath config) in
  try_catch
    (access dir)
    (fun error =>
       if is_ENOENT error then
         console LogLevel [Text ("Creating directory for state file: " +:+ dir)];;
         mkdir dir
       else throw error).

(** The result is the parsed document, or [JNull] for [null]. *)
Definition readLastState : M FileSystem Event JsValue :=
  try_catch
    (ensureStateDirectoryExists;;
     data <- readFile (stateFilePath config);;
     settle (JSON_parse data))
    (fun error =>
       if is_ENOENT error then
         console LogLevel [Text "State file not found, assuming first run."];;
         ret JNull
       else
         console ErrorLevel
           [Text ("Error reading state file " +:+ stateFilePath config +:+ ":"); Value error];;
         throw error).

Definition writeState (state : JsValue) : M FileSystem Event unit :=
  try_catch
    (ensureStateDirectoryExists;;
     let data := JSON_stringify state in
     writeFile (stateFilePath config) data;;
     console LogLevel [Text ("State successfully written to " +:+ stateFilePath config)])
    (fun error =>
       console ErrorLevel
         [Text ("Error writing state file " +:+ stateFilePath config +:+ ":"); Value error];;
       throw error).

End WithPlatform.

End Storage.

(** ** JSON text ([JSON.stringify(value, null, 2)] and [JSON.parse])

    The two built-ins [src/storage.ts] calls, over the documents of
    [JsValue]: the printer with an indentation of two spaces, and a parser of
    the JSON grammar.  An integer is printed in decimal digits, as JavaScript
    prints one below [1e21].  A number literal with a fraction or an exponent
    has no value in [JsValue] (its numbers are integers), and neither has an
    escape [\uXXXX] above [\u00ff] (its strings are 8-bit code units): the
    parser stops at them. *)

Module Json.
Import Js.

(** *** [JSON.stringify(value, null, 2)] *)

Fixpoint indentation (depth : nat) : string :=
  match depth with
  | O => ""
  | S d => "  " +:+ indentation d
  end.

Fixpoint stringify_at (depth : nat) (v : JsValue) : string :=
  match v with
  | JNull => "null"
  | JBool true => "true"
  | JBool false => "false"
  | JNumber n => pretty n
  | JSpecial NegativeZero => "0"
  | JSpecial _ => "null"
  | JString s => Comparer.quote s
  | JArray [] => "[]"
  | JArray (x :: rest) =>
      "[" +:+ nl +:+ indentation (S depth) +:+ stringify_at (S depth) x
      +:+ (fix tail (l : list JsValue) : string :=
             match l with
             | [] => nl +:+ indentation depth +:+ "]"
             | y :: l' =>
                 "," +:+ nl +:+ indentation (S depth) +:+ stringify_at (S depth) y
                 +:+ tail l'
             end) rest
  | JObject [] => "{}"
  | JObject ((k, x) :: rest) =>
      "{" +:+ nl +:+ indentation (S depth) +:+ Comparer.quote k +:+ ": "
      +:+ stringify_at (S depth) x
      +:+ (fix tail (l : list (string * JsValue)) : string :=
             match l with
             | [] => nl +:+ indentation depth +:+ "}"
             | (k', y) :: l' =>
                 "," +:+ nl +:+ indentation (S depth) +:+ Comparer.quote k' +:+ ": "
                 +:+ stringify_at (S depth) y +:+ tail l'
             end) rest
  end.

Definition stringify (v : JsValue) : string := stringify_at 0 v.

(** *** [JSON.parse] *)

Definition is_whitespace (c : ascii) : bool :=
  let n := nat_of_ascii c in
  Nat.eqb n 32 || Nat.eqb n 9 || Nat.eqb n 10 || Nat.eqb n 13.

Fixpoint skip_whitespace (s : string) : string :=
  match s with
  | String c rest => if is_whitespace c then skip_whitespace rest else s
  | EmptyString => EmptyString
  end.

Fixpoint strip_prefix (prefix s : string) : option string :=
  match prefix, s with
  | EmptyString, _ => Some s
  | String p prefix', String c rest =>
      if Ascii.eqb p c then strip_prefix prefix' rest else None
  | String _ _, EmptyString => None
  end.

Definition digit_value (c : ascii) : option N :=
  let n := nat_of_ascii c in
  if Nat.leb 48 n && Nat.leb n 57 then Some (N.of_nat (n - 48)) else None.

Definition hex_value (c : ascii) : option nat :=
  let n := nat_of_ascii c in
  if Nat.leb 48 n && Nat.leb n 57 then Some (n - 48)
  else if Nat.leb 97 n && Nat.leb n 102 then Some (n - 87)
  else if Nat.leb 65 n && Nat.leb n 70 then Some (n - 55)
  else None.

Fixpoint read_digits (acc : N) (s : string) : N * string :=
  match s with
  | String c rest =>
      match digit_value c with
      | Some d => read_digits (acc * 10 + d) rest
      | None => (acc, s)
      end
  | EmptyString => (acc, EmptyString)
  end.

(** What can follow the digits of the integer part and still belong to the
    number: a further digit, a fraction or an exponent. *)
Definition continues_number (s : string) : bool :=
  match s with
  | String c _ =>
      let n := nat_of_ascii c in
      (Nat.leb 48 n && Nat.leb n 57) || Nat.eqb n 46 || Nat.eqb n 101 || Nat.eqb n 69
  | EmptyString => false
  end.

Definition starts_with_digit (s : string) : bool :=
  match s with
  | String c _ => match digit_value c with Some _ => true | None => false end
  | EmptyString => false
  end.

(** A number: an optional minus sign and an integer part without a leading
    zero.  A fraction or an exponent has no value in [JsValue]: the model
    stops at them. *)
Definition parse_integer (negative : bool) (s : string) : option (JsValue * string) :=
  match s with
  | String c rest =>
      match digit_value c with
      | None => None
      | Some d =>
          if N.eqb d 0 && starts_with_digit rest then None
          else
            match read_digits 0 s with
            | (n, rest') =>
                if continues_number rest' then None
                else if negative then
                  Some (if N.eqb n 0 then JSpecial NegativeZero else JNumber (- Z.of_N n),
                        rest')
                else Some (JNumber (Z.of_N n), rest')
            end
      end
  | EmptyString => None
  end.

Definition parse_number (s : string) : option (JsValue * string) :=
  match s with
  | String c rest =>
      if Nat.eqb (nat_of_ascii c) 45 then parse_integer true rest
      else parse_integer false s
  | EmptyString => None
  end.

(** The characters of a string literal, after the opening quote. *)
Fixpoint parse_characters (s : string) : option (string * string) :=
  let keep (c : ascii) (r : option (string * string)) :=
    match r with
    | Some (text, rest) => Some (String c text, rest)
    | None => None
    end in
  match s with
  | EmptyString => None
  | String c rest =>
      let n := nat_of_ascii c in
      if Nat.eqb n 34 then Some (EmptyString, rest)
      else if Nat.eqb n 92 then
        match rest with
        | String e rest' =>
            let m := nat_of_ascii e in
            if Nat.eqb m 34 || Nat.eqb m 92 || Nat.eqb m 47 then
              keep e (parse_characters rest')
            else if Nat.eqb m 98 then keep (ascii_of_nat 8) (parse_characters rest')
            else if Nat.eqb m 102 then keep (ascii_of_nat 12) (parse_characters rest')
            else if Nat.eqb m 110 then keep (ascii_of_nat 10) (parse_characters rest')
            else if Nat.eqb m 114 then keep (ascii_of_nat 13) (parse_characters rest')
            else if Nat.eqb m 116 then keep (ascii_of_nat 9) (parse_characters rest')
            else if Nat.eqb m 117 then
              match rest' with
              | String h1 (String h2 (String h3 (String h4 rest''))) =>
                  match hex_value h1, hex_value h2, hex_value h3, hex_value h4 with
                  | Some a, Some b, Some c', Some d =>
                      if Nat.eqb a 0 && Nat.eqb b 0
                      then keep (ascii_of_nat (16 * c' + d)) (parse_characters rest'')
                      else None
                  | _, _, _, _ => None
                  end
              | _ => None
              end
            else None
        | EmptyString => None
        end
      else if Nat.ltb n 32 then None
      else keep c (parse_characters rest)
  end.

(** *** The properties of an object

    [CreateDataProperty] on the object under construction: a key that is
    there keeps its place and takes the new value; a new key that is an array
    index goes among the array indices, in ascending order, before every other
    key; any other new key goes last. *)
Definition all_digits (s : string) : bool :=
  forallb (fun c => match digit_value c with Some _ => true | None => false end)
    (list_ascii_of_string s).

Definition array_index (key : string) : option N :=
  match key with
  | EmptyString => None
  | String c rest =>
      if all_digits key
         && negb (Nat.eqb (nat_of_ascii c) 48 && negb (String.eqb rest ""))
         && Nat.leb (String.length key) 10
      then
        let n := fst (read_digits 0 key) in
        if N.ltb n 4294967295 then Some n else None
      else None
  end.

Fixpoint has_key (key : string) (fields : list (string * JsValue)) : bool :=
  match fields with
  | [] => false
  | (k, _) :: rest => String.eqb k key || has_key key rest
  end.

Fixpoint replace_value (key : string) (v : JsValue) (fields : list (string * JsValue))
  : list (string * JsValue) :=
  match fields with
  | [] => []
  | (k, x) :: rest =>
      if String.eqb k key then (k, v) :: rest else (k, x) :: replace_value key v rest
  end.

Fixpoint insert_index (n : N) (key : string) (v : JsValue)
    (fields : list (string * JsValue)) : list (string * JsValue) :=
  match fields with
  | [] => [(key, v)]
  | (k, x) :: rest =>
      match array_index k with
      | Some m =>
          if N.ltb m n then (k, x) :: insert_index n key v rest
          else (key, v) :: (k, x) :: rest
      | None => (key, v) :: (k, x) :: rest
      end
  end.

Definition define (fields : list (string * JsValue)) (member : string * JsValue)
  : list (string * JsValue) :=
  let (key, v) := member in
  if has_key key fields then replace_value key v fields
  else match array_index key with
       | Some n => insert_index n key v fields
       | None => fields ++ [(key, v)]
       end.

Definition object_of (members : list (string * JsValue)) : JsValue :=
  JObject (fold_left define members []).

(** *** Values *)

Fixpoint parse_value (fuel : nat) (s : string) : option (JsValue * string) :=
  match fuel with
  | O => None
  | S fuel' =>
      match skip_whitespace s with
      | EmptyString => None
      | String c rest =>
          let n := nat_of_ascii c in
          if Nat.eqb n 91 then
            match skip_whitespace rest with
            | String c' rest' =>
                if Nat.eqb (nat_of_ascii c') 93 then Some (JArray [], rest')
                else match parse_elements fuel' rest with
                     | Some (items, rest'') => Some (JArray items, rest'')
                     | None => None
                     end
            | EmptyString => None
            end
          else if Nat.eqb n 123 then
            match skip_whitespace rest with
            | String c' rest' =>
                if Nat.eqb (nat_of_ascii c') 125 then Some (JObject [], rest')
                else match parse_members fuel' rest with
                     | Some (members, rest'') => Some (object_of members, rest'')
                     | None => None
                     end
            | EmptyString => None
            end
          else if Nat.eqb n 34 then
            match parse_characters rest with
            | Some (text, rest') => Some (JString text, rest')
            | None => None
            end
          else
            match strip_prefix "null" (String c rest) with
            | Some rest' => Some (JNull, rest')
            | None =>
                match strip_prefix "true" (String c rest) with
                | Some rest' => Some (JBool true, rest')
                | None =>
                    match strip_prefix "false" (String c rest) with
                    | Some rest' => Some (JBool false, rest')
                    | None => parse_number (String c rest)
                    end
                end
            end
      end
  end
with parse_elements (fuel : nat) (s : string) : option (list JsValue * string) :=
  match fuel with
  | O => None
  | S fuel' =>
      match parse_value fuel' s with
      | Some (v, rest) =>
          match skip_whitespace rest with
          | String c rest' =>
              let n := nat_of_ascii c in
              if Nat.eqb n 44 then
                match parse_elements fuel' rest' with
                | Some (items, rest'') => Some (v :: items, rest'')
                | None => None
                end
              else if Nat.eqb n 93 then Some ([v], rest')
              else None
          | EmptyString => None
          end
      | None => None
      end
  end
with parse_members (fuel : nat) (s : string)
  : option (list (string * JsValue) * string) :=
  match fuel with
  | O => None
  | S fuel' =>
      match skip_whitespace s with
      | String q after_quote =>
          if Nat.eqb (nat_of_ascii q) 34 then
            match parse_characters after_quote with
            | Some (key, after_key) =>
                match skip_whitespace after_key with
                | String colon after_colon =>
                    if Nat.eqb (nat_of_ascii colon) 58 then
                      match parse_value fuel' after_colon with
                      | Some (v, rest) =>
                          match skip_whitespace rest with
                          | String c rest' =>
                              let n := nat_of_ascii c in
                              if Nat.eqb n 44 then
                                match parse_members fuel' rest' with
                                | Some (members, rest'') =>
                                    Some ((key, v) :: members, rest'')
                                | None => None
                                end
                              else if Nat.eqb n 125 then Some ([(key, v)], rest')
                              else None
                          | EmptyString => None
                          end
                      | None => None
                      end
                    else None
                | EmptyString => None
                end
            | None => None
            end
          else None
      | EmptyString => None
      end
  end.

Definition SyntaxError (text : string) : Thrown :=
  let msg := "Unexpected token in JSON" in
  {| is_error := true; message := Some msg; stack := Some ("SyntaxError: " +:+ msg);
     code := None; to_string := "SyntaxError: " +:+ msg |}.

Definition parse (text : string) : Completion JsValue :=
  match parse_value (S (String.length text)) text with
  | Some (v, rest) =>
      match skip_whitespace rest with
      | EmptyString => Returns v
      | String _ _ => Throws (SyntaxError text)
      end
  | None => Throws (SyntaxError text)
  end.

(** *** What a JSON text carries unchanged

    The keys of an object in the order the object enumerates them: every key
    once, the array indices first, in ascending order. *)
Fixpoint enumeration_order (fields : list (string * JsValue)) : bool :=
  match fields with
  | [] => true
  | (k, _) :: rest =>
      negb (has_key k rest)
      && match rest with
         | [] => true
         | (k', _) :: _ =>
             match array_index k' with
             | None => true
             | Some n =>
                 match array_index k with
                 | Some m => N.ltb m n
                 | None => false
                 end
             end
         end
      && enumeration_order rest
  end.

(** A document without a special number, its objects as JavaScript holds
    them. *)
Fixpoint storable (v : JsValue) : bool :=
  match v with
  | JSpecial _ => false
  | JArray items =>
      (fix all (l : list JsValue) : bool :=
         match l with
         | [] => true
         | x :: rest => storable x && all rest
         end) items
  | JObject fields =>
      enumeration_order fields
      && (fix all (l : list (string * JsValue)) : bool :=
            match l with
            | [] => true
            | (_, x) :: rest => storable x && all rest
            end) fields
  | _ => true
  end.

(** The text after the first element of an array, and after the first
    member of an object. *)
Definition array_tail (depth : nat) (items : list JsValue) : string :=
  (fix tail (l : list JsValue) : string :=
     match l with
     | [] => nl +:+ indentation depth +:+ "]"
     | y :: l' =>
         "," +:+ nl +:+ indentation (S depth) +:+ stringify_at (S depth) y +:+ tail l'
     end) items.

Definition object_tail (depth : nat) (fields : list (string * JsValue)) : string :=
  (fix tail (l : list (string * JsValue)) : string :=
     match l with
     | [] => nl +:+ indentation depth +:+ "}"
     | (k', y) :: l' =>
         "," +:+ nl +:+ indentation (S depth) +:+ Comparer.quote k' +:+ ": "
         +:+ stringify_at (S depth) y +:+ tail l'
     end) fields.

(** The number of nodes of a document: the depth of recursion the parser
    needs for its text. *)
Fixpoint size (v : JsValue) : nat :=
  match v with
  | JArray items =>
      S ((fix sum (l : list JsValue) : nat :=
            match l with
            | [] => 0
            | x :: rest => S (size x) + sum rest
            end) items)
  | JObject fields =>
      S ((fix sum (l : list (string * JsValue)) : nat :=
            match l with
            | [] => 0
            | (_, x) :: rest => S (size x) + sum rest
            end) fields)
  | _ => 1
  end.

(** The first code unit of the text of a value: not white space, not a
    closing bracket, a comma or a colon. *)
Definition opens_value (c : ascii) : bool :=
  let n := nat_of_ascii c in
  negb (is_whitespace c) && negb (Nat.eqb n 93) && negb (Nat.eqb n 125)
  && negb (Nat.eqb n 44) && negb (Nat.eqb n 58).

Definition items_size (l : list JsValue) : nat :=
  (fix sum (l : list JsValue) : nat :=
     match l with
     | [] => 0
     | x :: rest => S (size x) + sum rest
     end) l.

Definition fields_size (l : list (string * JsValue)) : nat :=
  (fix sum (l : list (string * JsValue)) : nat :=
     match l with
     | [] => 0
     | (_, x) :: rest => S (size x) + sum rest
     end) l.

Definition items_storable (l : list JsValue) : bool :=
  (fix all (l : list JsValue) : bool :=
     match l with
     | [] => true
     | x :: rest => storable x && all rest
     end) l.

Definition fields_storable (l : list (string * JsValue)) : bool :=
  (fix all (l : list (string * JsValue)) : bool :=
     match l with
     | [] => true
     | (_, x) :: rest => storable x && all rest
     end) l.

(** The text of a value is read back as the value, whatever follows it that
    does not continue a number. *)
Definition reads_back (v : JsValue) : Prop :=
  storable v = true ->
  forall depth fuel rest,
    size v <= fuel -> continues_number rest = false ->
    parse_value fuel (stringify_at depth v +:+ rest) = Some (v, rest).

End Json.

(** ** The orchestrator ([src/index.ts])

    [checkJsonUpdates] is an asynchronous function: it runs until it awaits
    one of the imported operations, is suspended, and is resumed with the
    outcome of that operation.  A program is the tree of these calls. *)

Module Orchestrator.
Import Js.

(** The operations [checkJsonUpdates] performs: reads and writes of the
    module variable [isJobRunning], console output, the clock, and the five
    awaited calls into the other modules.  [readLastState] answers with the
    stored document, [JNull] for [null]. *)
Inductive Call : Type -> Type :=
| GetJobRunning : Call bool
| SetJobRunning (b : bool) : Call unit
| Console (level : Level) (args : list LogArg) : Call unit
| Now : Call string
| FetchJsonData : Call (Completion JsValue)
| ReadLastState : Call (Completion JsValue)
| WriteState (state : JsValue) : Call (Completion unit)
| GenerateChangeSummary (changes : list Change) : Call (Completion ChangeSummaryResult)
| SendTelegramNotification (text : string) : Call (Completion unit).

Inductive Prog (A : Type) : Type :=
| Ret (a : A)
| Throw (t : Thrown)
| Vis {R : Type} (c : Call R) (k : R -> Prog A).
Arguments Ret {A} a.
Arguments Throw {A} t.
Arguments Vis {A R} c k.

Fixpoint bind {A B} (p : Prog A) (f : A -> Prog B) : Prog B :=
  match p with
  | Ret a => f a
  | Throw t => Throw t
  | Vis c k => Vis c (fun r => bind (k r) f)
  end.

(** [try { p } catch (error) { h error }] *)
Fixpoint try_catch {A} (p : Prog A) (h : Thrown -> Prog A) : Prog A :=
  match p with
  | Ret a => Ret a
  | Throw t => h t
  | Vis c k => Vis c (fun r => try_catch (k r) h)
  end.

(** [try { p } finally { q }]: [q] runs on every exit of [p], then the outcome
    of [p] stands (unless [q] throws). *)
Fixpoint finally {A} (p : Prog A) (q : Prog unit) : Prog A :=
  match p with
  | Ret a => bind q (fun _ => Ret a)
  | Throw t => bind q (fun _ => Throw t)
  | Vis c k => Vis c (fun r => finally (k r) q)
  end.

Definition perform {R} (c : Call R) : Prog R := Vis c Ret.

(** [await f(…)]: a rejection is thrown at the point of the [await]. *)
Definition await {A} (c : Call (Completion A)) : Prog A :=
  Vis c (fun r => match r with
                  | Returns a => Ret a
                  | Throws t => Throw t
                  end).

Definition console_log (text : string) : Prog unit :=
  perform (Console LogLevel [Text text]).

Declare Scope prog_scope.
Delimit Scope prog_scope with prog.
Notation "x <- m ;; k" := (bind m (fun x => k))
  (at level 100, m at next level, right associativity) : prog_scope.
Notation "m ;; k" := (bind m (fun _ => k))
  (at level 100, right associativity) : prog_scope.
Local Open Scope prog_scope.

(** A synchronous call of [compareJson]: its console output, then its
    result. *)
Definition inline {A} (m : Eff.M unit (Level * list LogArg) A) : Prog A :=
  match m tt with
  | (r, _, logs) =>
      fold_right (fun entry p => Vis (Console (fst entry) (snd entry)) (fun _ => p))
        (match r with
         | Returns a => Ret a
         | Throws t => Throw t
         end)
        logs
  end.

(** [String(error instanceof Error ? error.stack || error.message : error)] *)
Definition error_text (error : Thrown) : string :=
  if is_error error then
    if truthy (stack error) then default "" (stack error)
    else default "undefined" (message error)
  else to_string error.

Section WithDiff.
Variable diffJson : JsValue -> JsValue -> list Change.

(** The body of the [try] block. *)
Definition cycle_body : Prog unit :=
  currentState <- await FetchJsonData;;
  if negb (is_object currentState)
  then Throw (new_Error "Fetched data is not a valid JSON object.")
  else
    lastState <- await ReadLastState;;
    if is_null lastState then
      console_log "No previous state found. Storing current state.";;
      await (WriteState currentState)
    else
      changes <- inline (Comparer.compareJson diffJson lastState currentState);;
      let actualChanges :=
        match changes with
        | Some cs => filter (fun c => is_actual c = true) cs
        | None => []
        end in
      if Nat.ltb 0 (List.length actualChanges) then
        console_log "Changes detected! Requesting summary and evaluation from AI...";;
        aiResult <- await (GenerateChangeSummary actualChanges);;
        (if isWorthToReport aiResult then
           console_log "AI determined changes are worth reporting. Sending notification...";;
           let escapedSummary := Escape.escapeMarkdownV2 (reportedChanges aiResult) in
           let notificationMessage :=
             "*JSON Update Detected*" +:+ nl +:+ nl +:+ escapedSummary in
           await (SendTelegramNotification notificationMessage)
         else
           console_log "AI determined changes are NOT significant enough to report based on criteria, or the summary was empty. Notification skipped.");;
        await (WriteState currentState)
      else console_log "No significant changes found after comparison.".

(** The [catch] block. *)
Definition cycle_handler (error : Thrown) : Prog unit :=
  perform (Console ErrorLevel [Text "Error during JSON update check:"; Value error]);;
  try_catch
    (let errorMessage := error_text error in
     let escapedError := Escape.escapeMarkdownV2 (substring0 500 errorMessage) in
     await (SendTelegramNotification
              ("*Error checking JSON updates*:" +:+ nl +:+ "```" +:+ nl
               +:+ escapedError
               +:+ (if Nat.ltb 500 (String.length errorMessage)
                    then "...[truncated]" else "")
               +:+ nl +:+ "```")))
    (fun notifyError =>
       perform (Console ErrorLevel
                  [Text "Failed to send error notification:"; Value notifyError])).

(** The [finally] block. *)
Definition cycle_release : Prog unit :=
  perform (SetJobRunning false);;
  console_log "JSON update check finished.".

Definition checkJsonUpdates : Prog unit :=
  running <- perform GetJobRunning;;
  if running : bool then
    console_log "Previous check is still running. Skipping this run.";;
    Ret tt
  else
    perform (SetJobRunning true);;
    now <- perform Now;;
    console_log (nl +:+ "[" +:+ now +:+ "] Running JSON update check...");;
    finally (try_catch cycle_body cycle_handler) cycle_release.

End WithDiff.

(** *** What an observer of the process sees *)

Inductive Obs : Type :=
| Logged (level : Level) (args : list LogArg)
| Fetched
| ReadLast
| Wrote (state : JsValue)
| Summarized (changes : list Change)
| Notified (text : string).

(** The calls that suspend the function: the awaited ones. *)
Definition awaited {R} (c : Call R) : option Obs :=
  match c with
  | FetchJsonData => Some Fetched
  | ReadLastState => Some ReadLast
  | WriteState s => Some (Wrote s)
  | GenerateChangeSummary cs => Some (Summarized cs)
  | SendTelegramNotification text => Some (Notified text)
  | GetJobRunning | SetJobRunning _ | Console _ _ | Now => None
  end.

Definition is_collaborator_call (o : Obs) : bool :=
  match o with
  | Logged _ _ => false
  | _ => true
  end.

Definition writes (trace : list Obs) : list JsValue :=
  omap (fun o => match o with Wrote s => Some s | _ => None end) trace.

Definition summaries (trace : list Obs) : list (list Change) :=
  omap (fun o => match o with Summarized cs => Some cs | _ => None end) trace.

Definition notifications (trace : list Obs) : list string :=
  omap (fun o => match o with Notified text => Some text | _ => None end) trace.

(** *** One cycle against given collaborators

    The collaborators answer each call with an outcome; the cycle runs to its
    end. *)
Record World : Type := mkWorld {
  clock : string;
  fetch : Completion JsValue;
  readLast : Completion JsValue;
  write : JsValue -> Completion unit;
  summarize : list Change -> Completion ChangeSummaryResult;
  notify : string -> Completion unit
}.

Fixpoint run (w : World) {A} (p : Prog A) (running : bool)
  : Completion A * bool * list Obs :=
  match p with
  | Ret a => (Returns a, running, [])
  | Throw t => (Throws t, running, [])
  | Vis c k =>
      match c in Call R return (R -> Prog A) -> Completion A * bool * list Obs with
      | GetJobRunning => fun k => run w (k running) running
      | SetJobRunning b => fun k => run w (k tt) b
      | Console level args => fun k =>
          match run w (k tt) running with
          | (r, g, t) => (r, g, Logged level args :: t)
          end
      | Now => fun k => run w (k (clock w)) running
      | FetchJsonData => fun k =>
          match run w (k (fetch w)) running with
          | (r, g, t) => (r, g, Fetched :: t)
          end
      | ReadLastState => fun k =>
          match run w (k (readLast w)) running with
          | (r, g, t) => (r, g, ReadLast :: t)
          end
      | WriteState s => fun k =>
          match run w (k (write w s)) running with
          | (r, g, t) => (r, g, Wrote s :: t)
          end
      | GenerateChangeSummary cs => fun k =>
          match run w (k (summarize w cs)) running with
          | (r, g, t) => (r, g, Summarized cs :: t)
          end
      | SendTelegramNotification text => fun k =>
          match run w (k (notify w text)) running with
          | (r, g, t) => (r, g, Notified text :: t)
          end
      end k
  end.

(** *** Overlapping triggers

    A suspended invocation waits for the outcome of one awaited call. *)
Inductive Task : Type :=
| Awaiting {R : Type} (c : Call R) (k : R -> Prog unit).

Inductive Status : Type :=
| Finished (r : Completion unit)
| Suspended (t : Task).

(** Run an invocation until it finishes or reaches its next [await].  Between
    two suspension points nothing else runs. *)
Fixpoint advance (time : string) (p : Prog unit) (running : bool)
  : bool * list Obs * Status :=
  match p with
  | Ret a => (running, [], Finished (Returns a))
  | Throw t => (running, [], Finished (Throws t))
  | Vis c k =>
      match c in Call R return (R -> Prog unit) -> bool * list Obs * Status with
      | GetJobRunning => fun k => advance time (k running) running
      | SetJobRunning b => fun k => advance time (k tt) b
      | Console level args => fun k =>
          match advance time (k tt) running with
          | (g, t, st) => (g, Logged level args :: t, st)
          end
      | Now => fun k => advance time (k time) running
      | FetchJsonData => fun k => (running, [Fetched], Suspended (Awaiting FetchJsonData k))
      | ReadLastState => fun k => (running, [ReadLast], Suspended (Awaiting ReadLastState k))
      | WriteState s => fun k => (running, [Wrote s], Suspended (Awaiting (WriteState s) k))
      | GenerateChangeSummary cs => fun k =>
          (running, [Summarized cs], Suspended (Awaiting (GenerateChangeSummary cs) k))
      | SendTelegramNotification text => fun k =>
          (running, [Notified text], Suspended (Awaiting (SendTelegramNotification text) k))
      end k
  end.

(** The process: the module variable [isJobRunning] and the invocations of
    [checkJsonUpdates] that are suspended. *)
Record Process : Type := mkProcess {
  isJobRunning : bool;
  inflight : list Task
}.

Definition initial : Process := {| isJobRunning := false; inflight := [] |}.

Definition suspended (st : Status) : list Task :=
  match st with
  | Suspended t => [t]
  | Finished _ => []
  end.

(** *** The run guard

    A call that neither reads nor writes [isJobRunning]. *)
Definition leaves_guard {R} (c : Call R) : bool :=
  match c with
  | GetJobRunning | SetJobRunning _ => false
  | _ => true
  end.

(** A program that never touches [isJobRunning]. *)
Inductive unguarded {A} : Prog A -> Prop :=
| unguarded_ret a : unguarded (Ret a)
| unguarded_throw t : unguarded (Throw t)
| unguarded_vis R (c : Call R) k :
    leaves_guard c = true -> (forall r, unguarded (k r)) -> unguarded (Vis c k).

(** A program that runs to its end without awaiting anything and without
    touching [isJobRunning]. *)
Inductive quiet : Prog unit -> Prop :=
| quiet_ret a : quiet (Ret a)
| quiet_throw t : quiet (Throw t)
| quiet_vis R (c : Call R) k :
    leaves_guard c = true -> awaited c = None -> (forall r, quiet (k r)) ->
    quiet (Vis c k).

(** A program that, on every path, sets [isJobRunning] to [false] once, and
    after that only finishes quietly. *)
Inductive releasing : Prog unit -> Prop :=
| releasing_release k : quiet (k tt) -> releasing (Vis (SetJobRunning false) k)
| releasing_vis R (c : Call R) k :
    leaves_guard c = true -> (forall r, releasing (k r)) -> releasing (Vis c k).

Definition task_releasing (t : Task) : Prop :=
  match t with
  | Awaiting c k => forall r, releasing (k r)
  end.

(** Every suspended invocation will release the guard, and there is one
    exactly while the guard is set. *)
Definition invariant (m : Process) : Prop :=
  Forall task_releasing (inflight m)
  /\ List.length (inflight m) = if isJobRunning m then 1 else 0.

Definition skip_log : Obs :=
  Logged LogLevel [Text "Previous check is still running. Skipping this run."].

Definition start_log (time : string) : Obs :=
  Logged LogLevel [Text (nl +:+ "[" +:+ time +:+ "] Running JSON update check...")].

(** The text of the notification of a change. *)
Definition update_message (summary : ChangeSummaryResult) : string :=
  "*JSON Update Detected*" +:+ nl +:+ nl
  +:+ Escape.escapeMarkdownV2 (reportedChanges summary).

Section Scheduler.
Variable diffJson : JsValue -> JsValue -> list Change.

(** The scheduler (or the start-up code) calls [checkJsonUpdates]. *)
Definition trigger (time : string) (m : Process) : Process * list Obs :=
  match advance time (checkJsonUpdates diffJson) (isJobRunning m) with
  | (g, t, st) => ({| isJobRunning := g; inflight := inflight m ++ suspended st |}, t)
  end.

(** The awaited call of a suspended invocation settles with [outcome]. *)
Definition resume {R} (time : string) (before after : list Task)
    (k : R -> Prog unit) (outcome : R) (running : bool) : Process * list Obs :=
  match advance time (k outcome) running with
  | (g, t, st) => ({| isJobRunning := g; inflight := before ++ suspended st ++ after |}, t)
  end.

Inductive step : Process -> list Obs -> Process -> Prop :=
| step_trigger time m :
    step m (snd (trigger time m)) (fst (trigger time m))
| step_resume time m before after R (c : Call R) k (outcome : R) :
    inflight m = before ++ Awaiting c k :: after ->
    step m (snd (resume time before after k outcome (isJobRunning m)))
           (fst (resume time before after k outcome (isJobRunning m))).

Inductive reachable : Process -> Prop :=
| reachable_initial : reachable initial
| reachable_step m t m' : reachable m -> step m t m' -> reachable m'.

End Scheduler.

End Orchestrator.

(** ** The fetcher ([src/fetcher.ts]) *)

Module Fetcher.
Import Js Eff.
Local Open Scope eff_scope.

(** What the program reads of a [Response]: [ok], [status], [statusText] and
    the outcome of [response.json()]. *)
Record Response : Type := mkResponse {
  ok : bool;
  status : nat;
  statusText : string;
  json : Completion JsValue
}.

Inductive Event : Type :=
| Console (level : Level) (args : list LogArg)
| Fetch (url : string).

Definition console (level : Level) (args : list LogArg) : M unit Event unit :=
  emit (Console level args).

Section WithTransport.
Variable config : Config.
(** The global [fetch]: resolves with a response or rejects. *)
Variable fetch : string -> Completion Response.

Definition fetchJsonData : M unit Event JsValue :=
  console LogLevel [Text ("Fetching JSON data from " +:+ jsonUrl config +:+ "...")];;
  try_catch
    (emit (Fetch (jsonUrl config));;
     response <- settle (fetch (jsonUrl config));;
     if negb (ok response) then
       throw (new_Error ("Failed to fetch JSON: " +:+ pretty (status response)
                         +:+ " " +:+ statusText response))
     else
       data <- settle (json response);;
       console LogLevel [Text "Successfully fetched JSON data."];;
       ret data)
    (fun error =>
       console ErrorLevel
         [Text ("Error fetching JSON data from " +:+ jsonUrl config +:+ ":"); Value error];;
       throw error).

End WithTransport.

(** The URLs requested, and what was written to [console.error]. *)
Definition requests (events : list Event) : list string :=
  omap (fun e => match e with Fetch url => Some url | _ => None end) events.

Definition error_logs (events : list Event) : list (list LogArg) :=
  omap (fun e => match e with Console ErrorLevel args => Some args | _ => None end) events.

End Fetcher.

(** ** The configuration ([src/config.ts]) *)

Module ConfigLoader.
Import Js Eff.
Local Open Scope eff_scope.

(** [getEnvVar]: [process.env[key]], [''] when it is unset and not required. *)
Definition getEnvVar (env : gmap string string) (key : string) (required : bool)
  : Completion string :=
  let value := env !! key in
  if required && negb (truthy value)
  then Throws (new_Error ("Missing required environment variable: " +:+ key))
  else Returns (if truthy value then default "" value else "").

(** [String.prototype.toLowerCase] on the letters [A] to [Z]; no other
    character lower-cases to a letter of ['true'], the only text the result
    is compared with. *)
Definition lower (c : ascii) : ascii :=
  let n := nat_of_ascii c in
  if Nat.leb 65 n && Nat.leb n 90 then ascii_of_nat (n + 32) else c.

Fixpoint toLowerCase (s : string) : string :=
  match s with
  | EmptyString => EmptyString
  | String c rest => String (lower c) (toLowerCase rest)
  end.

Section WithProcess.
(** [process.env], once [dotenv.config()] has run. *)
Variable env : gmap string string.
(** The directory above the one of [config.ts], and [path.resolve]. *)
Variable projectRoot : string.
Variable resolve : string -> string -> string.

(** [a || b] on strings. *)
Definition or_else (a b : string) : string :=
  if negb (String.eqb a "") then a else b.

(** The module body: the [config] object, field by field in the order of the
    object literal, then the console output. *)
Definition config : M unit (Level * list LogArg) Config :=
  jsonUrl' <- settle (getEnvVar env "JSON_URL" true);;
  openaiApiKey' <- settle (getEnvVar env "OPENAI_API_KEY" true);;
  openaiModelName' <- settle (getEnvVar env "OPENAI_MODEL_NAME" false);;
  openaiCustomPromptContext' <- settle (getEnvVar env "OPENAI_CUSTOM_PROMPT_CONTEXT" false);;
  telegramBotToken' <- settle (getEnvVar env "TELEGRAM_BOT_TOKEN" true);;
  telegramChatId' <- settle (getEnvVar env "TELEGRAM_CHAT_ID" true);;
  checkIntervalCron' <- settle (getEnvVar env "CHECK_INTERVAL_CRON" true);;
  telegramNotifyOnStart' <- settle (getEnvVar env "TELEGRAM_NOTIFY_ON_START" false);;
  stateFilePath' <- settle (getEnvVar env "STATE_FILE_PATH" false);;
  let loaded :=
    {| jsonUrl := jsonUrl';
       openaiApiKey := openaiApiKey';
       openaiModelName := or_else openaiModelName' "gpt-4o-mini";
       openaiCustomPromptContext := openaiCustomPromptContext';
       telegramBotToken := telegramBotToken';
       telegramChatId := telegramChatId';
       checkIntervalCron := checkIntervalCron';
       telegramNotifyOnStart := String.eqb (toLowerCase telegramNotifyOnStart') "true";
       stateFilePath := resolve projectRoot (or_else stateFilePath' "./lastState.json") |} in
  emit (LogLevel, [Text "Configuration loaded:"]);;
  emit (LogLevel, [Text ("- JSON URL: " +:+ jsonUrl loaded)]);;
  emit (LogLevel, [Text ("- Check Interval: " +:+ checkIntervalCron loaded)]);;
  emit (LogLevel, [Text ("- State File Path: " +:+ stateFilePath loaded)]);;
  emit (LogLevel, [Text ("- OpenAI Model: " +:+ openaiModelName loaded)]);;
  emit (LogLevel,
        [Text ("- Notify on Start: "
               +:+ if telegramNotifyOnStart loaded then "true" else "false")]);;
  ret loaded.

End WithProcess.

(** The variables [config.ts] requires, in the order it reads them. *)
Definition required_variables : list string :=
  ["JSON_URL"; "OPENAI_API_KEY"; "TELEGRAM_BOT_TOKEN"; "TELEGRAM_CHAT_ID";
   "CHECK_INTERVAL_CRON"].

(** A variable that is set to a non-empty value. *)
Definition is_set (env : gmap string string) (key : string) : bool :=
  truthy (env !! key).

End ConfigLoader.

(** ** Start-up ([src/index.ts], [main])

    [main] runs before the scheduler calls anything: its steps follow one
    another, the first check included. *)

Module Main.
Import Js Eff.
Local Open Scope eff_scope.

(** A job of [node-schedule]: [job.nextInvocation()?.toISOString()]. *)
Record Job : Type := mkJob { nextInvocation : option string }.

Inductive Event : Type :=
| Seen (o : Orchestrator.Obs)
| ScheduleJob (cron : string)
| OnSignal (name : string).

(** The part of [main] that is a call tree of the orchestrator, run against
    given collaborators. *)
Definition exec (w : Orchestrator.World) {A} (p : Orchestrator.Prog A)
  : M bool Event A :=
  fun running =>
    match Orchestrator.run w p running with
    | (r, g, t) => (r, g, map Seen t)
    end.

Definition console_log (text : string) : M bool Event unit :=
  emit (Seen (Orchestrator.Logged LogLevel [Text text])).

Section WithScheduler.
Variable config : Config.
Variable diffJson : JsValue -> JsValue -> list Change.
Variable w : Orchestrator.World.
(** [schedule.scheduleJob(cron, callback)]: the job, or [null] when the
    scheduler rejects the cron expression. *)
Variable scheduleJob : string -> option Job.

Definition startupMessage : string :=
  "*JSON Notifier Started*" +:+ nl +:+ nl
  +:+ "*Monitoring:* " +:+ Escape.escapeMarkdownV2 (jsonUrl config) +:+ nl
  +:+ "*Schedule:* `" +:+ Escape.escapeMarkdownV2 (checkIntervalCron config) +:+ "`" +:+ nl
  +:+ "*AI Model:* `" +:+ Escape.escapeMarkdownV2 (openaiModelName config) +:+ "`" +:+ nl
  +:+ "*Custom Prompt:* "
  +:+ (if negb (String.eqb (openaiCustomPromptContext config) "") then "Yes" else "No").

Definition main : M bool Event unit :=
  console_log "Starting JSON Notifier...";;
  (if telegramNotifyOnStart config then
     try_catch
       (exec w (Orchestrator.await (Orchestrator.SendTelegramNotification startupMessage));;
        console_log "Startup notification sent to Telegram.")
       (fun error =>
          emit (Seen (Orchestrator.Logged ErrorLevel
                        [Text "Failed to send startup notification:"; Value error])))
   else ret tt);;
  exec w (Orchestrator.checkJsonUpdates diffJson);;
  console_log ("Scheduling check with interval: " +:+ checkIntervalCron config);;
  emit (ScheduleJob (checkIntervalCron config));;
  match scheduleJob (checkIntervalCron config) with
  | Some job =>
      console_log ("Scheduler started. Next run at: "
                   +:+ default "N/A" (nextInvocation job));;
      emit (OnSignal "SIGINT")
  | None =>
      (* [job.nextInvocation()] on [null] *)
      throw (Notifier.read_of_nullish Notifier.Null "nextInvocation")
  end.

End WithScheduler.

(** The calls into the other modules, in the order [main] made them. *)
Definition collaborator_calls (trace : list Event) : list Orchestrator.Obs :=
  omap (fun e => match e with
                 | Seen o => if Orchestrator.is_collaborator_call o then Some o else None
                 | _ => None
                 end) trace.

Definition scheduled (trace : list Event) : list string :=
  omap (fun e => match e with ScheduleJob cron => Some cron | _ => None end) trace.

End Main.

(** ** What a trace holds *)

Module Observed.

(** The tokens the constructor was called with, and the messages handed to
    [bot.sendMessage], in the order of the calls. *)
Definition constructions (events : list Notifier.Event) : list string :=
  omap (fun e => match e with Notifier.Construct token => Some token | _ => None end) events.

Definition sends (events : list Notifier.Event) : list (string * string * string) :=
  omap (fun e => match e with
                 | Notifier.SendMessage chatId text parse_mode => Some (chatId, text, parse_mode)
                 | _ => None
                 end) events.

(** The directories [fs.mkdir] was asked for, and the calls of
    [fs.writeFile]. *)
Definition mkdirs (events : list Storage.Event) : list string :=
  omap (fun e => match e with Storage.Mkdir path => Some path | _ => None end) events.

Definition file_writes (events : list Storage.Event) : list (string * string) :=
  omap (fun e => match e with
                 | Storage.WriteFile path data => Some (path, data)
                 | _ => None
                 end) events.

End Observed.

(** ** Calls in sequence *)

Module Sequence.
Import Js Eff.

(** One [sendTelegramNotification] after the other, over the lifetime of the
    module: the variables of one call are those the next one finds. *)
Fixpoint send_all (config : Config) (construct : string -> Completion Notifier.TelegramBot)
    (sendMessage : Notifier.TelegramBot -> string -> string -> string -> Notifier.Settled)
    (texts : list string) (vars : Notifier.Vars) : Notifier.Vars * list Notifier.Event :=
  match texts with
  | [] => (vars, [])
  | text :: rest =>
      match Notifier.sendTelegramNotification config construct sendMessage text vars with
      | (_, vars1, events1) =>
          match send_all config construct sendMessage rest vars1 with
          | (vars2, events2) => (vars2, events1 ++ events2)
          end
      end
  end.

End Sequence.

(** ** Sample inputs *)

Module Samples.
Import Js.

Definition config : Config :=
  {| jsonUrl := "http://example.test/data.json"; openaiApiKey := "key";
     openaiModelName := "gpt-4o-mini"; openaiCustomPromptContext := "";
     telegramBotToken := "TOKEN"; telegramChatId := "CHAT";
     checkIntervalCron := "* * * * *"; telegramNotifyOnStart := false;
     stateFilePath := "/data/lastState.json" |}.

Definition added_line : Change :=
  {| value := "  b: new"; added := true; removed := false; count := Some 1 |}.

Definition removed_line : Change :=
  {| value := "  b: old"; added := false; removed := true; count := Some 1 |}.

Definition unchanged_line : Change :=
  {| value := "  a: 1"; added := false; removed := false; count := Some 1 |}.

(** An AI collaborator that answers with a verdict and an empty summary. *)
Definition empty_summary_object : JsValue :=
  JObject [("isWorthToReport", JBool true); ("reportedChanges", JString "")].

Definition render_issues (issues : list AiProcessor.Issue) : string :=
  String.concat "; " (map AiProcessor.issue_message issues).

(** A diff of whole documents: the old text removed, the new text added. *)
Definition whole_document_diff (oldState newState : JsValue) : list Change :=
  if String.eqb (Comparer.stringify oldState) (Comparer.stringify newState)
  then [{| value := Comparer.stringify newState; added := false; removed := false;
           count := Some 1 |}]
  else [{| value := Comparer.stringify oldState; added := false; removed := true;
           count := Some 1 |};
        {| value := Comparer.stringify newState; added := true; removed := false;
           count := Some 1 |}].

(** The diff the [diff] package makes of two documents with a [__proto__]
    key: it copies each document into a fresh object before printing it, and
    an assignment to [__proto__] creates no property, so the key is lost and
    the two printed documents are compared without it. *)
Definition without_proto (v : JsValue) : JsValue :=
  match v with
  | JObject fields =>
      JObject (List.filter (fun f => negb (String.eqb (fst f) "__proto__")) fields)
  | other => other
  end.

Definition proto_blind_diff (oldState newState : JsValue) : list Change :=
  whole_document_diff (without_proto oldState) (without_proto newState).

Definition proto_one : JsValue := JObject [("__proto__", JNumber 1)].
Definition proto_two : JsValue := JObject [("__proto__", JNumber 2)].

(** A platform for the state store: every path lies in [/data]; the
    documents are written and read as JSON text. *)
Definition state : JsValue := JObject [("a", JNumber 1)].

Definition dirname (path : string) : string := "/data".

Definition JSON_stringify (v : JsValue) : string := Json.stringify v.

Definition JSON_parse (text : string) : Completion JsValue := Json.parse text.

(** A document with a number beyond the range of a double, as [JSON.parse]
    reads it from [{"a": 1e999}]. *)
Definition infinite_state : JsValue := JObject [("a", JSpecial PositiveInfinity)].

Definition file_system : Storage.FileSystem :=
  {| Storage.directories := {["/data"]}; Storage.files := ∅; Storage.denied := ∅ |}.

(** Collaborators for one cycle: the stored document is [{ a: 1 }], the
    fetched one [{ a: 2 }], the summarizer finds the change not worth a
    report. *)
Definition fetched : JsValue := JObject [("a", JNumber 2)].

Definition world : Orchestrator.World :=
  {| Orchestrator.clock := "2025-01-01T00:00:00.000Z";
     Orchestrator.fetch := Returns fetched;
     Orchestrator.readLast := Returns state;
     Orchestrator.write := fun _ => Returns tt;
     Orchestrator.summarize :=
       fun _ => Returns {| isWorthToReport := false; reportedChanges := "a went from 1 to 2" |};
     Orchestrator.notify := fun _ => Returns tt |}.

Definition failing_world : Orchestrator.World :=
  {| Orchestrator.clock := "2025-01-01T00:00:00.000Z";
     Orchestrator.fetch := Throws (new_Error "fetch failed");
     Orchestrator.readLast := Returns state;
     Orchestrator.write := fun _ => Returns tt;
     Orchestrator.summarize :=
       fun _ => Returns {| isWorthToReport := false; reportedChanges := "unused" |};
     Orchestrator.notify := fun _ => Returns tt |}.

(** The notifier after a first call without credentials. *)
Definition disabled_vars : Notifier.Vars :=
  {| Notifier.botInstance := None; Notifier.botInitializationError := None;
     Notifier.isBotInitialized := true |}.

(** A messaging library whose constructor returns and whose sends resolve,
    and one whose constructor throws. *)
Definition construct_ok (token : string) : Completion Notifier.TelegramBot :=
  Returns (Notifier.mkBot token).

Definition construct_fails (token : string) : Completion Notifier.TelegramBot :=
  Throws (new_Error "401 Unauthorized").

Definition send_ok (bot : Notifier.TelegramBot) (chatId text parse_mode : string)
  : Notifier.Settled :=
  Notifier.Resolved.

(** A send that is rejected with an error of the Telegram API, and one that
    is rejected with [undefined]. *)
Definition send_fails (bot : Notifier.TelegramBot) (chatId text parse_mode : string)
  : Notifier.Settled :=
  Notifier.Rejected (new_Error "Telegram API error").

Definition send_rejects_undefined (bot : Notifier.TelegramBot)
    (chatId text parse_mode : string) : Notifier.Settled :=
  Notifier.RejectedNullish Notifier.Undefined.

(** An AI collaborator that finds a change worth a report. *)
Definition worthy_object : JsValue :=
  JObject [("isWorthToReport", JBool true); ("reportedChanges", JString "b changed")].

(** A file system that refuses the state file, and one with nothing in it. *)
Definition locked_file_system : Storage.FileSystem :=
  {| Storage.directories := {["/data"]}; Storage.files := ∅;
     Storage.denied := {["/data/lastState.json"]} |}.

Definition empty_file_system : Storage.FileSystem :=
  {| Storage.directories := ∅; Storage.files := ∅; Storage.denied := ∅ |}.

(** An environment with the five required variables and the start-up
    notification switched on, and the configuration it loads. *)
Definition environment : gmap string string :=
  list_to_map
    [("JSON_URL", "http://example.test/data.json"); ("OPENAI_API_KEY", "key");
     ("TELEGRAM_BOT_TOKEN", "TOKEN"); ("TELEGRAM_CHAT_ID", "CHAT");
     ("CHECK_INTERVAL_CRON", "* * * * *"); ("TELEGRAM_NOTIFY_ON_START", "True")].

Definition resolve (root path : string) : string := root +:+ "/" +:+ path.

Definition loaded : Config :=
  {| jsonUrl := "http://example.test/data.json"; openaiApiKey := "key";
     openaiModelName := "gpt-4o-mini"; openaiCustomPromptContext := "";
     telegramBotToken := "TOKEN"; telegramChatId := "CHAT";
     checkIntervalCron := "* * * * *"; telegramNotifyOnStart := true;
     stateFilePath := "/app/./lastState.json" |}.

(** Collaborators whose fetch yields a number. *)
Definition scalar_world : Orchestrator.World :=
  {| Orchestrator.clock := "2025-01-01T00:00:00.000Z";
     Orchestrator.fetch := Returns (JNumber 1);
     Orchestrator.readLast := Returns state;
     Orchestrator.write := fun _ => Returns tt;
     Orchestrator.summarize :=
       fun _ => Returns {| isWorthToReport := false; reportedChanges := "unused" |};
     Orchestrator.notify := fun _ => Returns tt |}.

End Samples.

(** * Properties *)

(** ** Escaping *)

Section EscapeFacts.
Import Escape.

Lemma in_class_backslash : in_class backslash = false.
Proof. reflexivity. Qed.

Lemma lookbehind_after_backslash : lookbehind_ok (Some backslash) = false.
Proof. reflexivity. Qed.

(** Escaping an escaped text again, from the same left context, changes
    nothing: every reserved code unit of the output follows a backslash. *)
Lemma replace_all_idempotent before text :
  replace_all before (replace_all before text) = replace_all before text.
Proof.
  revert before. induction text as [|c rest IH]; intros before; [reflexivity|].
  cbn [replace_all].
  destruct (lookbehind_ok before && in_class c) eqn:Hm.
  - cbn [replace_all]. rewrite in_class_backslash, andb_false_r.
    rewrite lookbehind_after_backslash. cbn [andb].
    now rewrite IH.
  - cbn [replace_all]. rewrite Hm. now rewrite IH.
Qed.

Lemma get_append_here pre c rest :
  String.get (String.length pre) (pre +:+ String c rest) = Some c.
Proof. induction pre as [|a pre IH]; [reflexivity|exact IH]. Qed.

Lemma last_unit_snoc before pre c :
  last_unit before (pre +:+ String c EmptyString) = Some c.
Proof. revert before. induction pre as [|a pre IH]; intros; [reflexivity|apply IH]. Qed.

Lemma length_snoc pre c :
  String.length (pre +:+ String c EmptyString) = S (String.length pre).
Proof.
  induction pre as [|a pre IH]; [reflexivity|].
  change (S (String.length (pre +:+ String c EmptyString)) = S (S (String.length pre))).
  now f_equal.
Qed.

Lemma append_snoc pre c rest :
  (pre +:+ String c EmptyString) +:+ rest = pre +:+ String c rest.
Proof.
  induction pre as [|a pre IH]; [reflexivity|].
  change (String a ((pre +:+ String c EmptyString) +:+ rest)
          = String a (pre +:+ String c rest)).
  now f_equal.
Qed.

Lemma get_last_unit pre :
  match String.length pre with
  | O => None
  | S j => String.get j pre
  end = last_unit None pre.
Proof.
  assert (G : forall a q,
             String.get (String.length q) (String a q) = last_unit (Some a) q).
  { intros a q. revert a. induction q as [|b q IH]; intros a; [reflexivity|].
    cbn [String.length last_unit]. rewrite <- IH. reflexivity. }
  destruct pre as [|a pre]; [reflexivity|].
  cbn [String.length last_unit]. apply G.
Qed.

Lemma get_append_left j pre rest :
  j < String.length pre -> String.get j (pre +:+ rest) = String.get j pre.
Proof.
  revert j. induction pre as [|a pre IH]; intros j Hj; [cbn in Hj; lia|].
  destruct j as [|j]; [reflexivity|]. cbn in *. apply IH. lia.
Qed.

Lemma preceded_spec pre c rest :
  preceded_by_backslash (pre +:+ String c rest) (String.length pre)
  = negb (lookbehind_ok (last_unit None pre)).
Proof.
  unfold preceded_by_backslash. rewrite <- get_last_unit.
  destruct (String.length pre) as [|j] eqn:Hlen; [reflexivity|].
  rewrite get_append_left by lia.
  unfold lookbehind_ok. destruct (String.get j pre); [|reflexivity].
  now rewrite negb_involutive.
Qed.

Lemma replace_all_by_position pre rest :
  replace_all (last_unit None pre) rest
  = fold_right String.append ""
      (map (piece (pre +:+ rest)) (seq (String.length pre) (String.length rest))).
Proof.
  revert pre. induction rest as [|c rest IH]; intros pre; [reflexivity|].
  cbn [replace_all String.length seq map fold_right].
  unfold piece at 1. rewrite get_append_here, preceded_spec, negb_involutive.
  specialize (IH (pre +:+ String c EmptyString)).
  rewrite last_unit_snoc, length_snoc, append_snoc in IH.
  rewrite <- IH.
  destruct (lookbehind_ok (last_unit None pre) && in_class c); reflexivity.
Qed.

End EscapeFacts.

Example escape_reserved :
  Escape.escapeMarkdownV2 "_*[]()~`>#+-=|{}.!"
  = "\_\*\[\]\(\)\~\`\>\#\+\-\=\|\{\}\.\!".
Proof. reflexivity. Qed.

Example escape_plain :
  Escape.escapeMarkdownV2 "Hello world 123 ABC abc /:?,@" = "Hello world 123 ABC abc /:?,@".
Proof. reflexivity. Qed.

Example escape_hash_tag :
  Escape.escapeMarkdownV2 "#hash-tag and another #hash-tag!"
  = "\#hash\-tag and another \#hash\-tag\!".
Proof. reflexivity. Qed.

(** C7, as the claim words it, fails: in the three code units [\\.] the
    second backslash is escaped by the first, so the dot is not preceded by
    an unescaped backslash and would have to be escaped; [escapeMarkdownV2]
    leaves the text as it is. *)
Lemma escapeMarkdownV2_escaped_backslash_counterexample :
  Escape.escape_unescaped "\\." = "\\\."
  /\ Escape.escapeMarkdownV2 "\\." = "\\."
  /\ Escape.escapeMarkdownV2 "\\." <> Escape.escape_unescaped "\\.".
Proof. repeat split. discriminate. Qed.

(** C7 (amended): for every input, [escapeMarkdownV2] puts a backslash before
    each reserved code unit except where the code unit just before it in the
    input is a backslash (escaped or not), and leaves every other code unit
    as it is. *)
Theorem escapeMarkdownV2_by_position (text : string) :
  Escape.escapeMarkdownV2 text = Escape.escape_by_position text.
Proof.
  unfold Escape.escapeMarkdownV2, Escape.escape_by_position.
  exact (replace_all_by_position EmptyString text).
Qed.

(** C10: [escapeMarkdownV2] is idempotent. *)
Theorem escapeMarkdownV2_idempotent (text : string) :
  Escape.escapeMarkdownV2 (Escape.escapeMarkdownV2 text) = Escape.escapeMarkdownV2 text.
Proof. apply replace_all_idempotent. Qed.

(** ** The notifier *)

Section NotifierFacts.
Import Js Eff Notifier.
Variable config : Config.
Variable construct : string -> Completion TelegramBot.
Variable sendMessage : TelegramBot -> string -> string -> string -> Settled.

Ltac no_send H :=
  repeat (destruct H as [H|H]; [discriminate|]); exact H.

Ltac logged :=
  solve [repeat (first [left; reflexivity | right])].

(** [getBotInstance] never throws, hands back the [botInstance] it leaves in
    the module variable, and sends nothing. *)
Lemma getBotInstance_returns vars :
  fst (fst (getBotInstance config construct vars))
  = Returns (botInstance (snd (fst (getBotInstance config construct vars))))
  /\ (forall chat text mode,
        ~ In (SendMessage chat text mode) (snd (getBotInstance config construct vars))).
Proof.
  unfold getBotInstance, bind, try_catch, get, put, assign, console, emit, settle, ret.
  destruct vars as [b e i]; cbn.
  destruct i; cbn; [split; [reflexivity|cbn; tauto]|].
  destruct (credentials_present config); cbn.
  - destruct (construct (telegramBotToken config)); cbn;
      (split; [reflexivity|intros ? ? ? H; no_send H]).
  - split; [reflexivity|intros ? ? ? H; no_send H].
Qed.

(** From the uninitialised module, the first call resolves the client: Ready
    when the credentials are present and the constructor returns, FailedInit
    when it throws, Disabled (without any construction) when a credential is
    missing. *)
Theorem getBotInstance_resolves :
  client_state (snd (fst (getBotInstance config construct initial)))
  = if credentials_present config then
      match construct (telegramBotToken config) with
      | Returns _ => Ready
      | Throws _ => FailedInit
      end
    else Disabled.
Proof.
  unfold getBotInstance, bind, try_catch, get, put, assign, console, emit, settle, ret.
  cbn. destruct (credentials_present config); cbn; [|reflexivity].
  destruct (construct (telegramBotToken config)); reflexivity.
Qed.

(** Once the client is resolved it is not constructed again: a later call
    hands back the cached instance, changes nothing and logs nothing. *)
Theorem getBotInstance_cached vars :
  isBotInitialized vars = true ->
  getBotInstance config construct vars = (Returns (botInstance vars), vars, []).
Proof.
  intros H. unfold getBotInstance, bind, get, ret. rewrite H. reflexivity.
Qed.


End NotifierFacts.



Example notify_disabled :
  Notifier.sendTelegramNotification
    {| Js.jsonUrl := "u"; Js.openaiApiKey := "k"; Js.openaiModelName := "m";
       Js.openaiCustomPromptContext := ""; Js.telegramBotToken := "";
       Js.telegramChatId := ""; Js.checkIntervalCron := "c";
       Js.telegramNotifyOnStart := false; Js.stateFilePath := "p" |}
    (fun token => Js.Returns (Notifier.mkBot token))
    (fun _ _ _ _ => Notifier.Resolved) "hello" Notifier.initial
  = (Js.Returns tt,
     {| Notifier.botInstance := None; Notifier.botInitializationError := None;
        Notifier.isBotInitialized := true |},
     [Notifier.Console Js.WarnLevel
        [Js.Text "Telegram bot token or chat ID not provided. Telegram notifications disabled."];
      Notifier.Console Js.LogLevel
        [Js.Text "Telegram notifications are disabled. Skipping notification."];
      Notifier.Console Js.LogLevel
        [Js.Text ("[Telegram Notification Skipped]:" +:+ Js.nl +:+ "hello")]]).
Proof. reflexivity. Qed.

Example notify_failed_init :
  fst (Notifier.sendTelegramNotification Samples.config
         (fun _ => Js.Throws (Js.new_Error "Invalid bot token"))
         (fun _ _ _ _ => Notifier.Resolved) "hello" Notifier.initial)
  = (Js.Returns tt,
     {| Notifier.botInstance := None;
        Notifier.botInitializationError := Some (Js.new_Error "Invalid bot token");
        Notifier.isBotInitialized := true |}).
Proof. reflexivity. Qed.

Example notify_send_fails :
  Notifier.sendTelegramNotification Samples.config
    (fun token => Js.Returns (Notifier.mkBot token))
    (fun _ _ _ _ => Notifier.Rejected (Js.new_Error "Telegram API error")) "hello"
    Notifier.initial
  = (Js.Returns tt,
     {| Notifier.botInstance := Some (Notifier.mkBot "TOKEN");
        Notifier.botInitializationError := None; Notifier.isBotInitialized := true |},
     [Notifier.Construct "TOKEN";
      Notifier.Console Js.LogLevel [Js.Text "Telegram bot initialized on first use."];
      Notifier.Console Js.LogLevel
        [Js.Text "Sending notification to Telegram chat ID: CHAT"];
      Notifier.SendMessage "CHAT" "hello" "MarkdownV2";
      Notifier.Console Js.ErrorLevel
        [Js.Text "Error sending Telegram notification:"; Js.Text "Telegram API error"];
      Notifier.Console Js.ErrorLevel
        [Js.Text ("[Failed Telegram Message]:" +:+ Js.nl +:+ "hello")]]).
Proof. reflexivity. Qed.

(** ** The summarizer *)

Section AiProcessorFacts.
Import Js Eff AiProcessor.
Variable config : Config.
Variable generateObject : Request -> Completion JsValue.
Variable zod_message : list Issue -> string.

(** What a call on an array comes to, case by case. *)
Lemma generateChangeSummary_cases (changes : list Change) :
  let actual := filter (fun c => is_actual c = true) changes in
  fst (fst (generateChangeSummary config generateObject zod_message (Some changes) tt))
  = Returns
      (match actual with
       | [] => defaultNoChangesResult
       | _ :: _ =>
           match generateObject (request_for config actual) with
           | Throws _ => defaultErrorResult
           | Returns object =>
               match safeParse object with
               | inl data => data
               | inr issues => validation_failure zod_message issues
               end
           end
       end)
  /\ filter (fun e => is_call e = true)
       (snd (generateChangeSummary config generateObject zod_message (Some changes) tt))
     = match actual with
       | [] => []
       | _ :: _ => [GenerateObject (request_for config actual)]
       end.
Proof.
  cbv zeta. unfold generateChangeSummary, bind at 1. cbn [ret].
  destruct (filter (fun c => is_actual c = true) changes) as [|c actual] eqn:Hf.
  - cbn. split; reflexivity.
  - cbn [List.length Nat.eqb].
    unfold request_for, validation_failure, try_catch, bind, console, emit, settle, ret.
    cbn.
    match goal with
    | |- context [generateObject ?r] => destruct (generateObject r) as [object|error]
    end; cbn; [|split; reflexivity].
    destruct (safeParse object) as [data|issues]; cbn; split; reflexivity.
Qed.

Lemma generateChangeSummary_request (changes : list Change) request :
  In (GenerateObject request)
     (snd (generateChangeSummary config generateObject zod_message (Some changes) tt)) ->
  filter (fun c => is_actual c = true) changes <> []
  /\ request = request_for config (filter (fun c => is_actual c = true) changes).
Proof.
  intros Hin.
  assert (Hcall : In (GenerateObject request)
                    (filter (fun e => is_call e = true)
                       (snd (generateChangeSummary config generateObject zod_message
                               (Some changes) tt)))).
  { apply list_elem_of_In, list_elem_of_filter. split; [reflexivity|].
    now apply list_elem_of_In. }
  destruct (generateChangeSummary_cases changes) as [_ Hcalls]. cbv zeta in Hcalls.
  rewrite Hcalls in Hcall.
  destruct (filter (fun c => is_actual c = true) changes); [destruct Hcall|].
  split; [discriminate|]. destruct Hcall as [H|[]]. now injection H as <-.
Qed.

Lemma append_not_empty a s t : String a s +:+ t <> "".
Proof. discriminate. Qed.

Lemma filter_actual_nil (changes : list Change) :
  filter (fun c => is_actual c = true) changes = []
  <-> Forall (fun c => is_actual c = false) changes.
Proof.
  induction changes as [|c l IH]; [split; constructor|].
  rewrite filter_cons. destruct (decide (is_actual c = true)) as [Hc|Hc].
  - split; [discriminate|]. intros H. inversion H; congruence.
  - rewrite IH. split.
    + intros H. constructor; [now destruct (is_actual c)|exact H].
    + intros H. now inversion H.
Qed.

Lemma filter_actual_cons (changes : list Change) :
  Exists (fun c => is_actual c = true) changes ->
  exists c actual, filter (fun c => is_actual c = true) changes = c :: actual.
Proof.
  intros Hex.
  destruct (filter (fun c => is_actual c = true) changes) as [|c actual] eqn:Hf; [|eauto].
  apply filter_actual_nil in Hf. apply Exists_exists in Hex as (c & Hin & Hc).
  rewrite Forall_forall in Hf. specialize (Hf c Hin). congruence.
Qed.

(** What the schema makes of an answer that is not an object with a boolean
    [isWorthToReport] and a string [reportedChanges]: a failure with at least
    one issue. *)
Lemma safeParse_invalid (object : JsValue) :
  (forall fields b text,
     object = JObject fields ->
     get_field "isWorthToReport" fields = Some (JBool b) ->
     get_field "reportedChanges" fields = Some (JString text) -> False) ->
  exists issues, issues <> [] /\ safeParse object = inr issues.
Proof.
  intros Hinvalid. unfold safeParse.
  destruct object as [| | | | | |fields]; try (eexists; split; [|reflexivity]; discriminate).
  destruct (get_field "isWorthToReport" fields) as [[|b| | | | |]|] eqn:Hw;
    try (eexists; split; [|reflexivity]; discriminate);
    destruct (get_field "reportedChanges" fields) as [[| | | |text| |]|] eqn:Hr;
    try (eexists; split; [|reflexivity]; discriminate).
  exfalso. exact (Hinvalid fields b text eq_refl Hw Hr).
Qed.

(** C4 (amended): on a change set that is present (an array of segments)
    [generateChangeSummary] never throws.  When the array holds an added or
    removed segment it calls the AI collaborator, once: if that call fails,
    the result is the default error result; if the collaborator answers with
    something that is not an object with a boolean [isWorthToReport] and a
    string [reportedChanges], validation fails with at least one issue and
    the result has [isWorthToReport: false] and a text that holds the message
    of the validation error. *)
Theorem generateChangeSummary_fails_closed (changes : list Change) :
  let result := generateChangeSummary config generateObject zod_message (Some changes) tt in
  (exists summary, fst (fst result) = Returns summary)
  /\ (Exists (fun c => is_actual c = true) changes ->
      exists request,
        filter (fun e => is_call e = true) (snd result) = [GenerateObject request]
        /\ (forall error,
              generateObject request = Throws error ->
              fst (fst result)
              = Returns {| isWorthToReport := false;
                           reportedChanges := "Error generating change summary." |})
        /\ (forall object,
              generateObject request = Returns object ->
              (forall fields b text,
                 object = JObject fields ->
                 get_field "isWorthToReport" fields = Some (JBool b) ->
                 get_field "reportedChanges" fields = Some (JString text) -> False) ->
              exists issues,
                issues <> [] /\ safeParse object = inr issues
                /\ fst (fst result)
                   = Returns
                       {| isWorthToReport := false;
                          reportedChanges :=
                            "Error: AI response did not match expected format. Details: "
                            +:+ zod_message issues
                            +:+ ". Error generating change summary." |})).
Proof.
  cbv zeta. destruct (generateChangeSummary_cases changes) as [Hres Hcalls].
  cbv zeta in Hres, Hcalls.
  split; [eexists; exact Hres|].
  intros Hex. destruct (filter_actual_cons changes Hex) as (c & actual & Hf).
  rewrite Hf in Hres, Hcalls.
  exists (request_for config (c :: actual)). split; [exact Hcalls|]. split.
  - intros error Hgo. now rewrite Hres, Hgo.
  - intros object Hgo Hinvalid.
    destruct (safeParse_invalid object Hinvalid) as (issues & Hne & Hparse).
    exists issues. split; [exact Hne|]. split; [exact Hparse|].
    now rewrite Hres, Hgo, Hparse.
Qed.

(** C5 (amended): applied to an array that holds no added or removed segment
    (the empty array included), [generateChangeSummary] returns
    [{isWorthToReport: false, reportedChanges: "No changes detected."}]; it
    logs nothing and does not call the AI collaborator. *)
Theorem generateChangeSummary_no_changes (changes : list Change) :
  Forall (fun c => is_actual c = false) changes ->
  generateChangeSummary config generateObject zod_message (Some changes) tt
  = (Returns {| isWorthToReport := false; reportedChanges := "No changes detected." |},
     tt, []).
Proof.
  intros Hall.
  assert (Hf : filter (fun c => is_actual c = true) changes = []).
  { induction Hall as [|c l Hc _ IH]; [reflexivity|].
    rewrite filter_cons. destruct (decide (is_actual c = true)); [congruence|exact IH]. }
  unfold generateChangeSummary, bind at 1. cbn [ret]. rewrite Hf. reflexivity.
Qed.

(** C9 (amended): the summary [generateChangeSummary] returns for an array has
    a non-empty [reportedChanges], unless it is the answer of the AI
    collaborator, returned as the schema parsed it (the schema accepts every
    string, the empty one too). *)
Theorem generateChangeSummary_reportedChanges (changes : list Change) :
  exists summary,
    fst (fst (generateChangeSummary config generateObject zod_message (Some changes) tt))
    = Returns summary
    /\ (reportedChanges summary <> ""
        \/ exists request object,
             In (GenerateObject request)
                (snd (generateChangeSummary config generateObject zod_message
                        (Some changes) tt))
             /\ generateObject request = Returns object
             /\ safeParse object = inl summary).
Proof.
  destruct (generateChangeSummary_cases changes) as [Hres Hcalls]. cbv zeta in Hres, Hcalls.
  eexists. split; [exact Hres|].
  destruct (filter (fun c => is_actual c = true) changes) as [|c actual] eqn:Hf;
    [left; discriminate|].
  destruct (generateObject (request_for config (c :: actual))) as [object|error] eqn:Hgo;
    [|left; discriminate].
  destruct (safeParse object) as [data|issues] eqn:Hparse;
    [|left; apply append_not_empty].
  right. exists (request_for config (c :: actual)), object.
  split; [|split; [exact Hgo|exact Hparse]].
  assert (Hin : In (GenerateObject (request_for config (c :: actual)))
                  (filter (fun e => is_call e = true)
                     (snd (generateChangeSummary config generateObject zod_message
                             (Some changes) tt)))).
  { rewrite Hcalls. now left. }
  apply list_elem_of_In, list_elem_of_filter in Hin. now apply list_elem_of_In.
Qed.

Lemma length_substring0 n s : String.length (substring0 n s) <= n.
Proof.
  unfold substring0. revert s. induction n as [|n IH]; intros [|c s]; cbn; try lia.
  specialize (IH s). lia.
Qed.

Lemma length_substring0_long n s :
  n <= String.length s -> String.length (substring0 n s) = n.
Proof.
  unfold substring0. revert s. induction n as [|n IH]; intros [|c s]; cbn; try lia.
  intros H. rewrite IH; lia.
Qed.

Lemma length_app_string s t : String.length (s +:+ t) = String.length s + String.length t.
Proof.
  induction s as [|c s IH]; [reflexivity|].
  change (S (String.length (s +:+ t)) = S (String.length s + String.length t)).
  now f_equal.
Qed.

Example formatDiffForAI_segments :
  formatDiffForAI [Samples.removed_line; Samples.unchanged_line; Samples.added_line]
  = "Detected changes:" +:+ nl +:+ nl
    +:+ "[REMOVED] b: old" +:+ nl +:+ "---" +:+ nl +:+ "[ADDED] b: new" +:+ nl.
Proof. reflexivity. Qed.

Lemma request_for_user_content_bounded changes :
  String.length (user_content (request_for config changes)) <= maxDiffLength + 25.
Proof.
  unfold request_for. cbn [user_content].
  destruct (Nat.ltb_spec maxDiffLength (String.length (formatDiffForAI changes))) as [H|H].
  - rewrite !length_app_string.
    pose proof (length_substring0 maxDiffLength (formatDiffForAI changes)).
    cbn [String.length nl]. lia.
  - lia.
Qed.

(** The diff text of every request [generateChangeSummary] hands to the AI
    collaborator is bounded: at most [maxDiffLength] code units of the
    rendered diff and the truncation marker. *)
Theorem request_user_content_bounded (changes : list Change) :
  Forall (fun e => match e with
                   | GenerateObject request =>
                       String.length (user_content request) <= maxDiffLength + 25
                   | Console _ _ => True
                   end)
    (snd (generateChangeSummary config generateObject zod_message (Some changes) tt)).
Proof.
  apply List.Forall_forall. intros [level args|request] Hin; [exact I|].
  destruct (generateChangeSummary_request changes request Hin) as [_ ->].
  apply request_for_user_content_bounded.
Qed.

End AiProcessorFacts.

(** C5, as the claim words it, fails for an absent change set: [null] has no
    [filter], the call throws before any result is built. *)
Lemma generateChangeSummary_absent_counterexample :
  fst (fst (AiProcessor.generateChangeSummary Samples.config
              (fun _ => Js.Returns Samples.empty_summary_object)
              Samples.render_issues None tt))
  = Js.Throws (AiProcessor.TypeError "Cannot read properties of null (reading 'filter')")
  /\ fst (fst (AiProcessor.generateChangeSummary Samples.config
                 (fun _ => Js.Returns Samples.empty_summary_object)
                 Samples.render_issues None tt))
     <> Js.Returns AiProcessor.defaultNoChangesResult.
Proof. split; [reflexivity|discriminate]. Qed.

(** C4, as the claim words it, fails for an absent change set: the call
    throws, whatever the AI collaborator would answer. *)
Lemma generateChangeSummary_absent_throws_counterexample :
  ~ exists summary,
      fst (fst (AiProcessor.generateChangeSummary Samples.config
                  (fun _ => Js.Returns Samples.worthy_object)
                  Samples.render_issues None tt))
      = Js.Returns summary.
Proof. intros [summary H]. discriminate H. Qed.

Lemma generateChangeSummary_no_changes_witness :
  Forall (fun c => Js.is_actual c = false) [Samples.unchanged_line]
  /\ AiProcessor.generateChangeSummary Samples.config
    (fun _ => Js.Returns Samples.empty_summary_object) Samples.render_issues
    (Some [Samples.unchanged_line]) tt
  = (Js.Returns {| Js.isWorthToReport := false;
                   Js.reportedChanges := "No changes detected." |}, tt, []).
Proof.
  assert (H : Forall (fun c => Js.is_actual c = false) [Samples.unchanged_line])
    by (repeat constructor).
  split; [exact H|].
  exact (generateChangeSummary_no_changes Samples.config
           (fun _ => Js.Returns Samples.empty_summary_object) Samples.render_issues
           [Samples.unchanged_line] H).
Defined.

(** C9, as the claim words it, fails: an answer of the AI collaborator with an
    empty [reportedChanges] passes the schema and is returned as it is. *)
Lemma generateChangeSummary_empty_summary_counterexample :
  AiProcessor.safeParse Samples.empty_summary_object
  = inl {| Js.isWorthToReport := true; Js.reportedChanges := "" |}
  /\ fst (fst (AiProcessor.generateChangeSummary Samples.config
                 (fun _ => Js.Returns Samples.empty_summary_object)
                 Samples.render_issues (Some [Samples.added_line]) tt))
     = Js.Returns {| Js.isWorthToReport := true; Js.reportedChanges := "" |}.
Proof. split; reflexivity. Qed.

(** ** The state store *)

Section StorageFacts.
Import Js Eff Storage.
Variable config : Config.
Variable dirname : string -> string.
Variable JSON_stringify : JsValue -> string.
Variable JSON_parse : string -> Completion JsValue.

Local Abbreviation path := (stateFilePath config).
Local Abbreviation dir := (dirname (stateFilePath config)).

Ltac run_fs :=
  unfold writeState, readLastState, ensureStateDirectoryExists, writeFile, readFile,
    access, mkdir, try_catch, bind, get, put, emit, throw, ret, settle, console in *;
  cbn in *.

(** What the file system looks like after a write that did not throw. *)
Lemma writeState_success state fs fs' events :
  writeState config dirname JSON_stringify state fs = (Returns tt, fs', events) ->
  (path ∉ denied fs') /\ (path ∉ directories fs') /\ (dir ∉ denied fs')
  /\ (dir ∈ directories fs')
  /\ files fs' !! path = Some (JSON_stringify state).
Proof.
  intros H. run_fs.
  repeat (match type of H with
          | context [decide ?P] => destruct (decide P); cbn in H
          end); try discriminate; injection H as <- <-; cbn;
    repeat split; try assumption; try (apply lookup_insert_eq); try set_solver.
Qed.

(** A read of a file that is there parses its text and leaves the file
    system as it is. *)
Lemma readLastState_present fs data :
  path ∉ denied fs -> path ∉ directories fs -> dir ∉ denied fs ->
  dir ∈ directories fs -> files fs !! path = Some data ->
  exists events,
    readLastState config dirname JSON_parse fs
    = (match JSON_parse data with
       | Returns v => Returns v
       | Throws t => if is_ENOENT t then Returns JNull else Throws t
       end, fs, events).
Proof.
  intros H1 H2 H3 H4 H5. run_fs.
  rewrite (decide_False (P := dir ∈ denied fs)) by assumption. cbn.
  rewrite (decide_True (P := dir ∈ directories fs)) by assumption. cbn.
  rewrite (decide_False (P := path ∈ denied fs)) by assumption. cbn.
  rewrite (decide_False (P := path ∈ directories fs)) by assumption. cbn.
  rewrite H5. cbn.
  destruct (JSON_parse data) as [v|t]; cbn; [eauto|].
  destruct (is_ENOENT t); cbn; eauto.
Qed.

(** A read with no state file, in an existing directory, is the first run:
    [null], no error, and the file system is left as it is. *)
Theorem readLastState_absent fs :
  path ∉ denied fs -> path ∉ directories fs -> dir ∉ denied fs ->
  dir ∈ directories fs -> files fs !! path = None ->
  exists events,
    readLastState config dirname JSON_parse fs = (Returns JNull, fs, events).
Proof.
  intros H1 H2 H3 H4 H5. run_fs.
  rewrite (decide_False (P := dir ∈ denied fs)) by assumption. cbn.
  rewrite (decide_True (P := dir ∈ directories fs)) by assumption. cbn.
  rewrite (decide_False (P := path ∈ denied fs)) by assumption. cbn.
  rewrite (decide_False (P := path ∈ directories fs)) by assumption. cbn.
  rewrite H5. cbn. eauto.
Qed.

(** A write that succeeds and the read that follows it, for a document that
    [JSON.parse] reads back from its [JSON.stringify] text. *)
Lemma writeState_then_readLastState_with state fs fs' events :
  JSON_parse (JSON_stringify state) = Returns state ->
  writeState config dirname JSON_stringify state fs = (Returns tt, fs', events) ->
  exists events',
    readLastState config dirname JSON_parse fs' = (Returns state, fs', events').
Proof.
  intros Hjson Hwrite.
  destruct (writeState_success state fs fs' events Hwrite) as (H1 & H2 & H3 & H4 & H5).
  destruct (readLastState_present fs' _ H1 H2 H3 H4 H5) as [events' Hread].
  rewrite Hjson in Hread. eauto.
Qed.

End StorageFacts.

(** ** The comparer *)

Section ComparerFacts.
Import Js Eff Comparer.

Lemma ascii_compare_trans a b c o :
  Ascii.compare a b = o -> Ascii.compare b c = o -> Ascii.compare a c = o.
Proof.
  unfold Ascii.compare. intros H1 H2.
  destruct o.
  - apply N.compare_eq_iff in H1, H2. apply N.compare_eq_iff. congruence.
  - rewrite N.compare_lt_iff in *. lia.
  - rewrite N.compare_gt_iff in *. lia.
Qed.

Lemma string_leb_trans s1 s2 s3 :
  String.leb s1 s2 = true -> String.leb s2 s3 = true -> String.leb s1 s3 = true.
Proof.
  unfold String.leb. revert s2 s3.
  induction s1 as [|a s1 IH]; intros [|b s2] [|c s3]; cbn; try congruence.
  destruct (Ascii.compare a b) eqn:Hab; try congruence;
    destruct (Ascii.compare b c) eqn:Hbc; try congruence.
  - apply Ascii.compare_eq_iff in Hab, Hbc. subst.
    assert (Ascii.compare c c = Eq) as -> by (unfold Ascii.compare; apply N.compare_refl).
    apply IH.
  - apply Ascii.compare_eq_iff in Hab. subst. now rewrite Hbc.
  - apply Ascii.compare_eq_iff in Hbc. subst. now rewrite Hab.
  - now rewrite (ascii_compare_trans _ _ _ _ Hab Hbc).
Qed.

Global Instance key_le_trans : Transitive key_le.
Proof. intros x y z. unfold key_le. apply string_leb_trans. Qed.

Global Instance key_le_total : Total key_le.
Proof. intros x y. unfold key_le. apply String.leb_total. Qed.

Lemma JsValue_ind' (P : JsValue -> Prop) :
  P JNull -> (forall b, P (JBool b)) -> (forall n, P (JNumber n)) ->
  (forall x, P (JSpecial x)) -> (forall s, P (JString s)) ->
  (forall items, Forall P items -> P (JArray items)) ->
  (forall fields, Forall (fun f => P (snd f)) fields -> P (JObject fields)) ->
  forall v, P v.
Proof.
  intros Hnull Hbool Hnum Hspecial Hstr Harr Hobj.
  fix IH 1. intros [| b | n | x | s | items | fields];
    [apply Hnull|apply Hbool|apply Hnum|apply Hspecial|apply Hstr|apply Harr|apply Hobj].
  - induction items as [|x items IHl]; constructor; [apply IH|exact IHl].
  - induction fields as [|[k x] fields IHl]; constructor; [apply IH|exact IHl].
Qed.

Lemma stringify_array items :
  stringify (JArray items) = "[" +:+ String.concat "," (map stringify items) +:+ "]".
Proof.
  reflexivity.
Qed.

Lemma stringify_object fields :
  stringify (JObject fields)
  = "{" +:+ String.concat "," (map member (merge_sort key_le (map entry fields))) +:+ "}".
Proof.
  cbn [stringify]. f_equal. f_equal. f_equal. f_equal. f_equal.
  induction fields as [|[k x] fields IH]; [reflexivity|]. cbn [map]. now rewrite <- IH.
Qed.

Lemma NoDup_keys_eq {A} (l : list (string * A)) x y :
  NoDup (map fst l) -> In x l -> In y l -> fst x = fst y -> x = y.
Proof.
  induction l as [|z l IH]; intros Hnd Hx Hy Hk; [destruct Hx|].
  cbn in Hnd. apply NoDup_cons in Hnd as [Hz Hnd].
  destruct Hx as [->|Hx], Hy as [->|Hy]; auto.
  - exfalso. apply Hz. rewrite Hk. apply list_elem_of_In, in_map, Hy.
  - exfalso. apply Hz. rewrite <- Hk. apply list_elem_of_In, in_map, Hx.
Qed.

Lemma merge_sort_entries (l1 l2 : list (string * string)) :
  NoDup (map fst l1) -> Permutation l1 l2 ->
  merge_sort key_le l1 = merge_sort key_le l2.
Proof.
  intros Hnd Hperm.
  apply (Sorted_unique_strong key_le).
  - intros x1 x2 H1 H2 H12 H21.
    assert (Hk : fst x1 = fst x2) by (apply String.leb_antisym; assumption).
    apply (NoDup_keys_eq l1); [exact Hnd| | |exact Hk].
    + apply list_elem_of_In. rewrite <- (merge_sort_Permutation key_le l1). exact H1.
    + apply list_elem_of_In. rewrite Hperm, <- (merge_sort_Permutation key_le l2). exact H2.
  - apply Sorted_merge_sort; apply _.
  - apply Sorted_merge_sort; apply _.
  - now rewrite !merge_sort_Permutation.
Qed.

Lemma reordered_stringify x :
  forall y, well_formed x -> reordered x y -> stringify x = stringify y.
Proof.
  induction x as [| b | n | x | s | items IH | fields IH] using JsValue_ind';
    intros y Hwf Hre; inversion Hre as [| | | | | xs ys Hall2 | fs gs hs Hall2 Hperm];
    subst; try reflexivity.
  - rewrite !stringify_array. do 3 f_equal.
    inversion Hwf as [| | | | | ? Hall |]; subst. clear Hre Hwf.
    revert IH Hall. induction Hall2 as [|a b l l' Hab _ IHl]; intros IH Hall;
      [reflexivity|].
    apply Forall_cons in IH as [IHa IH]. apply Forall_cons in Hall as [Ha Hall].
    cbn [map]. f_equal; [apply IHa; assumption|apply IHl; assumption].
  - rewrite !stringify_object. do 4 f_equal.
    inversion Hwf as [| | | | | |? Hnd Hall]; subst.
    assert (Hmap : map entry fields = map entry gs).
    { clear Hre Hnd Hwf Hperm. revert IH Hall.
      induction Hall2 as [|a b l l' [Hk Hab] _ IHl]; intros IH Hall; [reflexivity|].
      apply Forall_cons in IH as [IHa IH]. apply Forall_cons in Hall as [Ha Hall].
      cbn [map]. f_equal; [|apply IHl; assumption].
      unfold entry. rewrite Hk. f_equal. apply IHa; assumption. }
    rewrite Hmap. apply merge_sort_entries.
    + rewrite <- Hmap. rewrite map_map. cbn. exact Hnd.
    + apply Permutation_map. assumption.
Qed.

Variable diffJson : JsValue -> JsValue -> list Change.

(** What [compareJson] returns, case by case. *)
Lemma compareJson_cases oldState newState :
  outcome (compareJson diffJson oldState newState)
  = Returns
      (if String.eqb (stringify oldState) (stringify newState) then None
       else match filter (fun part => is_actual part = true) (diffJson oldState newState) with
            | [] => None
            | part :: parts => Some (part :: parts)
            end).
Proof.
  unfold outcome, compareJson, bind, log, emit, ret.
  destruct (String.eqb (stringify oldState) (stringify newState)); [reflexivity|].
  cbn. destruct (filter (fun part => is_actual part = true) (diffJson oldState newState));
    reflexivity.
Qed.

(** Every segment [compareJson] returns is added or removed, and there is at
    least one. *)
Lemma compareJson_segments oldState newState changes :
  outcome (compareJson diffJson oldState newState) = Returns (Some changes) ->
  changes <> []
  /\ filter (fun c => is_actual c = true) changes = changes
  /\ stringify oldState <> stringify newState.
Proof.
  rewrite compareJson_cases.
  destruct (String.eqb (stringify oldState) (stringify newState)) eqn:Heq; [discriminate|].
  apply String.eqb_neq in Heq.
  destruct (filter (fun part => is_actual part = true) (diffJson oldState newState))
    as [|part parts] eqn:Hf; [discriminate|].
  intros H. injection H as <-. split; [discriminate|]. split; [|exact Heq].
  rewrite <- Hf. apply list_filter_filter_l. auto.
Qed.

(** C3 (amended): [compareJson] returns a change set only if the canonical
    serializations of the two documents differ: it returns one exactly when
    they differ and the diff of the two documents holds an added or removed
    segment, and the change set is then those segments; otherwise the result
    is absent.  It never throws and never returns an empty change set;
    [compareJson(x, x)] is absent, also when the keys of the objects of [x]
    were inserted in another order. *)
Theorem compareJson_nonempty_only_if_canonical_texts_differ :
  (forall oldState newState,
      outcome (compareJson diffJson oldState newState) <> Returns (Some []))
  /\ (forall oldState newState changes,
        outcome (compareJson diffJson oldState newState) = Returns (Some changes)
        <-> stringify oldState <> stringify newState
            /\ changes = filter (fun part => is_actual part = true)
                           (diffJson oldState newState)
            /\ changes <> [])
  /\ (forall oldState newState,
        outcome (compareJson diffJson oldState newState) = Returns None
        <-> stringify oldState = stringify newState
            \/ filter (fun part => is_actual part = true) (diffJson oldState newState)
               = [])
  /\ (forall x, outcome (compareJson diffJson x x) = Returns None)
  /\ (forall x y,
        well_formed x -> reordered x y ->
        outcome (compareJson diffJson x y) = Returns None).
Proof.
  split; [|split; [|split; [|split]]].
  - intros oldState newState H.
    now destruct (compareJson_segments _ _ _ H) as [Hne _].
  - intros oldState newState changes. rewrite compareJson_cases. split.
    + destruct (String.eqb_spec (stringify oldState) (stringify newState)) as [Heq|Hne];
        [discriminate|].
      destruct (filter (fun part => is_actual part = true) (diffJson oldState newState))
        as [|part parts]; [discriminate|].
      intros H. injection H as <-. repeat split; [exact Hne|discriminate].
    + intros (Hne & -> & Hnil).
      destruct (String.eqb_spec (stringify oldState) (stringify newState)) as [Heq|_];
        [contradiction|].
      destruct (filter (fun part => is_actual part = true) (diffJson oldState newState));
        [contradiction|reflexivity].
  - intros oldState newState. rewrite compareJson_cases. split.
    + destruct (String.eqb_spec (stringify oldState) (stringify newState)) as [Heq|Hne];
        [now left|].
      destruct (filter (fun part => is_actual part = true) (diffJson oldState newState));
        [now right|discriminate].
    + intros [Heq|Hnil].
      * rewrite Heq. now rewrite String.eqb_refl.
      * rewrite Hnil. now destruct (String.eqb (stringify oldState) (stringify newState)).
  - intros x. rewrite compareJson_cases. now rewrite String.eqb_refl.
  - intros x y Hwf Hre. rewrite compareJson_cases.
    rewrite (reordered_stringify x y Hwf Hre). now rewrite String.eqb_refl.
Qed.

End ComparerFacts.

Example compareJson_same_keys_other_order :
  Comparer.outcome
    (Comparer.compareJson Samples.whole_document_diff
       (Js.JObject [("a", Js.JNumber 1); ("b", Js.JString "hello")])
       (Js.JObject [("b", Js.JString "hello"); ("a", Js.JNumber 1)]))
  = Js.Returns None.
Proof. reflexivity. Qed.

Lemma whole_document_diff_complete oldState newState :
  Comparer.stringify oldState <> Comparer.stringify newState ->
  exists part,
    In part (Samples.whole_document_diff oldState newState) /\ Js.is_actual part = true.
Proof.
  intros Hne. unfold Samples.whole_document_diff.
  destruct (String.eqb_spec (Comparer.stringify oldState) (Comparer.stringify newState));
    [contradiction|].
  eexists. split; [left; reflexivity|reflexivity].
Qed.

Example compareJson_changed_value :
  exists changes,
    Comparer.outcome
      (Comparer.compareJson Samples.whole_document_diff
         (Js.JObject [("a", Js.JNumber 1)]) (Js.JObject [("a", Js.JNumber 2)]))
    = Js.Returns (Some changes)
    /\ changes <> [].
Proof. eexists. split; [vm_compute; reflexivity|discriminate]. Qed.

(** C3, as the claim words it, fails: the canonical texts of [{"__proto__": 1}]
    and [{"__proto__": 2}] differ, the diff of the two documents holds no
    added or removed segment, and [compareJson] returns no change set. *)
Lemma compareJson_blind_diff_counterexample :
  Comparer.stringify Samples.proto_one <> Comparer.stringify Samples.proto_two
  /\ Comparer.outcome
       (Comparer.compareJson Samples.proto_blind_diff Samples.proto_one Samples.proto_two)
     = Js.Returns None
  /\ ~ exists changes,
         Comparer.outcome
           (Comparer.compareJson Samples.proto_blind_diff Samples.proto_one
              Samples.proto_two)
         = Js.Returns (Some changes)
         /\ changes <> [].
Proof.
  split; [vm_compute; discriminate|]. split; [vm_compute; reflexivity|].
  intros (changes & H & _). vm_compute in H. discriminate H.
Qed.

(** ** JSON text *)

Section JsonFacts.
Import Js Json.

Lemma append_assoc (a b c : string) : (a +:+ b) +:+ c = a +:+ (b +:+ c).
Proof.
  induction a as [|x a IH]; [reflexivity|].
  change (String x ((a +:+ b) +:+ c) = String x (a +:+ (b +:+ c))). now f_equal.
Qed.

Lemma pretty_N_go_app (x : N) : forall s t, pretty_N_go x s +:+ t = pretty_N_go x (s +:+ t).
Proof.
  induction (N.lt_wf_0 x) as [x _ IH]. intros s t.
  destruct (N.eq_dec x 0%N) as [->|Hx]; [now rewrite !pretty_N_go_0|].
  rewrite (pretty_N_go_step x s), (pretty_N_go_step x (s +:+ t)) by lia.
  rewrite IH by (apply N.div_lt; lia). reflexivity.
Qed.

Lemma digit_value_char (d : N) : (d < 10)%N -> digit_value (pretty_N_char d) = Some d.
Proof.
  intros Hd.
  assert (d = 0 \/ d = 1 \/ d = 2 \/ d = 3 \/ d = 4 \/ d = 5 \/ d = 6 \/ d = 7
          \/ d = 8 \/ d = 9)%N as H by lia.
  repeat (destruct H as [->|H]; [reflexivity|]). subst. reflexivity.
Qed.

Lemma read_digits_go (x : N) :
  exists k : N, forall acc s,
    read_digits acc (pretty_N_go x s) = read_digits (acc * 10 ^ k + x) s.
Proof.
  induction (N.lt_wf_0 x) as [x _ IH].
  destruct (N.eq_dec x 0%N) as [->|Hx].
  - exists 0%N. intros acc s. rewrite pretty_N_go_0. f_equal. rewrite N.pow_0_r. lia.
  - destruct (IH (x / 10)%N) as [k Hk]; [apply N.div_lt; lia|].
    exists (k + 1)%N. intros acc s.
    rewrite pretty_N_go_step by lia. rewrite Hk.
    cbn [read_digits]. rewrite digit_value_char by (apply N.mod_lt; lia).
    f_equal. rewrite N.pow_add_r, N.pow_1_r.
    pose proof (N.div_mod x 10). lia.
Qed.

Lemma pretty_N_go_head (x : N) :
  (0 < x)%N ->
  forall s, exists d tail, (0 < d < 10)%N /\ pretty_N_go x s = String (pretty_N_char d) tail.
Proof.
  induction (N.lt_wf_0 x) as [x _ IH]. intros Hx s.
  rewrite pretty_N_go_step by lia.
  destruct (N.eq_dec (x / 10)%N 0%N) as [Hq|Hq].
  - rewrite Hq, pretty_N_go_0. exists (x mod 10)%N. eexists. split; [|reflexivity].
    apply N.div_small_iff in Hq; [|lia]. rewrite N.mod_small by lia. lia.
  - apply IH; [apply N.div_lt; lia|]. destruct (x / 10)%N; [congruence|lia].
Qed.

Lemma read_digits_stop (n : N) (s : string) :
  starts_with_digit s = false -> read_digits n s = (n, s).
Proof.
  destruct s as [|c s]; [reflexivity|]. cbn [starts_with_digit read_digits].
  destruct (digit_value c); [discriminate|]. reflexivity.
Qed.

Lemma continues_number_digit (s : string) :
  continues_number s = false -> starts_with_digit s = false.
Proof.
  destruct s as [|c s]; [reflexivity|].
  cbn [continues_number starts_with_digit]. unfold digit_value.
  destruct (Nat.leb 48 (nat_of_ascii c) && Nat.leb (nat_of_ascii c) 57); [discriminate|].
  reflexivity.
Qed.

Lemma pretty_N_char_not_zero (d : N) :
  (0 < d < 10)%N -> N.eqb d 0 = false /\ digit_value (pretty_N_char d) = Some d.
Proof. intros H. split; [apply N.eqb_neq; lia|apply digit_value_char; lia]. Qed.

Lemma parse_integer_positive (negative : bool) (p : positive) (rest : string) :
  continues_number rest = false ->
  parse_integer negative (pretty (N.pos p) +:+ rest)
  = Some (JNumber (if negative then Z.neg p else Z.pos p), rest).
Proof.
  intros Hrest. unfold pretty, pretty_N. rewrite decide_False by discriminate.
  rewrite pretty_N_go_app. change ("" +:+ rest) with rest.
  destruct (pretty_N_go_head (N.pos p) ltac:(lia) rest) as (d & tail & Hd & Hgo).
  destruct (pretty_N_char_not_zero d Hd) as [Hz Hv].
  unfold parse_integer. rewrite Hgo, Hv, Hz. cbn [andb]. rewrite <- Hgo.
  destruct (read_digits_go (N.pos p)) as [k Hk]. rewrite Hk.
  rewrite N.mul_0_l, N.add_0_l.
  rewrite (read_digits_stop (N.pos p) rest (continues_number_digit rest Hrest)).
  rewrite Hrest. destruct negative; reflexivity.
Qed.

Lemma parse_integer_zero (rest : string) :
  continues_number rest = false ->
  parse_integer false ("0" +:+ rest) = Some (JNumber 0, rest).
Proof.
  intros Hrest. change ("0" +:+ rest) with (String "0" rest).
  unfold parse_integer. change (digit_value "0") with (Some 0%N).
  rewrite (continues_number_digit rest Hrest). cbn [N.eqb andb].
  cbn [read_digits]. change (digit_value "0") with (Some 0%N). cbn iota.
  change (0 * 10 + 0)%N with 0%N.
  rewrite (read_digits_stop 0%N rest (continues_number_digit rest Hrest)).
  now rewrite Hrest.
Qed.

Lemma parse_number_pretty (z : Z) (rest : string) :
  continues_number rest = false ->
  parse_number (pretty z +:+ rest) = Some (JNumber z, rest).
Proof.
  intros Hrest. destruct z as [|p|p].
  - change (pretty 0%Z +:+ rest) with (String "0" rest). unfold parse_number.
    change (Nat.eqb (nat_of_ascii "0") 45) with false. cbn iota.
    now apply parse_integer_zero.
  - change (pretty (Z.pos p)) with (pretty (N.pos p)).
    destruct (pretty_N_go_head (N.pos p) ltac:(lia) rest) as (d & tail & Hd & Hgo).
    assert (Hhead : pretty (N.pos p) +:+ rest = String (pretty_N_char d) tail).
    { unfold pretty, pretty_N. rewrite decide_False by discriminate.
      now rewrite pretty_N_go_app. }
    unfold parse_number. rewrite Hhead.
    assert (Hminus : Nat.eqb (nat_of_ascii (pretty_N_char d)) 45 = false).
    { assert (d = 1 \/ d = 2 \/ d = 3 \/ d = 4 \/ d = 5 \/ d = 6 \/ d = 7
              \/ d = 8 \/ d = 9)%N as H by lia.
      repeat (destruct H as [->|H]; [reflexivity|]). subst. reflexivity. }
    rewrite Hminus, <- Hhead. now apply (parse_integer_positive false).
  - change (pretty (Z.neg p)) with ("-" +:+ pretty (N.pos p)). rewrite append_assoc.
    change ("-" +:+ (pretty (N.pos p) +:+ rest)) with (String "-" (pretty (N.pos p) +:+ rest)).
    unfold parse_number. change (Nat.eqb (nat_of_ascii "-") 45) with true. cbn iota.
    now apply (parse_integer_positive true).
Qed.

Lemma parse_characters_unit (c : ascii) (tail : string) :
  parse_characters (Comparer.escape_unit c +:+ tail)
  = match parse_characters tail with
    | Some (text, rest) => Some (String c text, rest)
    | None => None
    end.
Proof.
  destruct c as [b0 b1 b2 b3 b4 b5 b6 b7].
  destruct b0, b1, b2, b3, b4, b5, b6, b7; reflexivity.
Qed.

Lemma parse_characters_quote (s rest : string) :
  parse_characters (Comparer.escape_units s +:+ dq +:+ rest) = Some (s, rest).
Proof.
  induction s as [|c s IH]; [reflexivity|].
  cbn [Comparer.escape_units]. rewrite append_assoc, parse_characters_unit, IH.
  reflexivity.
Qed.

Lemma has_key_app key (a b : list (string * JsValue)) :
  has_key key (a ++ b) = has_key key a || has_key key b.
Proof.
  induction a as [|[k x] a IH]; [reflexivity|].
  cbn [app has_key]. rewrite IH. now rewrite orb_assoc.
Qed.

Lemma enumeration_order_fresh (acc rest : list (string * JsValue)) k v :
  enumeration_order (acc ++ (k, v) :: rest) = true -> has_key k acc = false.
Proof.
  induction acc as [|[k0 x0] acc IH]; [reflexivity|].
  cbn [app enumeration_order has_key]. intros H.
  apply andb_true_iff in H as [H Hrest]. apply andb_true_iff in H as [Hfresh _].
  rewrite (IH Hrest), orb_false_r.
  apply negb_true_iff in Hfresh. rewrite has_key_app in Hfresh.
  apply orb_false_iff in Hfresh as [_ Hfresh]. cbn [has_key] in Hfresh.
  apply orb_false_iff in Hfresh as [Hfresh _].
  rewrite String.eqb_sym. exact Hfresh.
Qed.

Lemma enumeration_order_before (acc rest : list (string * JsValue)) k v n :
  enumeration_order (acc ++ (k, v) :: rest) = true ->
  array_index k = Some n ->
  Forall (fun f => exists m, array_index (fst f) = Some m /\ (m < n)%N) acc.
Proof.
  intros Horder Hk. induction acc as [|[k0 x0] acc IH]; [constructor|].
  cbn [app enumeration_order] in Horder.
  apply andb_true_iff in Horder as [H Hrest]. apply andb_true_iff in H as [_ Hpair].
  specialize (IH Hrest). constructor; [|exact IH]. cbn [fst].
  destruct acc as [|[k1 x1] acc].
  - cbn [app] in Hpair. rewrite Hk in Hpair.
    destruct (array_index k0) as [m|]; [|discriminate].
    exists m. split; [reflexivity|]. now apply N.ltb_lt.
  - cbn [app] in Hpair. apply Forall_cons in IH as [(m1 & Hm1 & Hlt) _].
    cbn [fst] in Hm1. rewrite Hm1 in Hpair.
    destruct (array_index k0) as [m|]; [|discriminate].
    exists m. split; [reflexivity|]. apply N.ltb_lt in Hpair. lia.
Qed.

Lemma insert_index_last (acc : list (string * JsValue)) k v n :
  Forall (fun f => exists m, array_index (fst f) = Some m /\ (m < n)%N) acc ->
  insert_index n k v acc = acc ++ [(k, v)].
Proof.
  induction 1 as [|[k0 x0] acc (m & Hm & Hlt) _ IH]; [reflexivity|].
  cbn [insert_index app]. cbn [fst] in Hm. rewrite Hm.
  apply N.ltb_lt in Hlt. rewrite Hlt. now rewrite IH.
Qed.

Lemma define_last (acc rest : list (string * JsValue)) k v :
  enumeration_order (acc ++ (k, v) :: rest) = true ->
  define acc (k, v) = acc ++ [(k, v)].
Proof.
  intros Horder. unfold define. rewrite (enumeration_order_fresh _ _ _ _ Horder).
  destruct (array_index k) as [n|] eqn:Hk; [|reflexivity].
  apply insert_index_last. exact (enumeration_order_before _ _ _ _ _ Horder Hk).
Qed.

Lemma fold_define (fields : list (string * JsValue)) :
  forall acc,
    enumeration_order (acc ++ fields) = true ->
    fold_left define fields acc = acc ++ fields.
Proof.
  induction fields as [|[k v] fields IH]; intros acc Horder.
  - now rewrite app_nil_r.
  - cbn [fold_left]. rewrite (define_last _ _ _ _ Horder).
    rewrite IH; rewrite <- app_assoc; [reflexivity|exact Horder].
Qed.

Lemma object_of_fields (fields : list (string * JsValue)) :
  enumeration_order fields = true -> object_of fields = JObject fields.
Proof. intros H. unfold object_of. now rewrite (fold_define fields []). Qed.

Lemma stringify_at_array depth x rest :
  stringify_at depth (JArray (x :: rest))
  = "[" +:+ nl +:+ indentation (S depth) +:+ stringify_at (S depth) x
    +:+ array_tail depth rest.
Proof. reflexivity. Qed.

Lemma stringify_at_object depth k x rest :
  stringify_at depth (JObject ((k, x) :: rest))
  = "{" +:+ nl +:+ indentation (S depth) +:+ Comparer.quote k +:+ ": "
    +:+ stringify_at (S depth) x +:+ object_tail depth rest.
Proof. reflexivity. Qed.

Lemma array_tail_cons depth y l :
  array_tail depth (y :: l)
  = "," +:+ nl +:+ indentation (S depth) +:+ stringify_at (S depth) y
    +:+ array_tail depth l.
Proof. reflexivity. Qed.

Lemma object_tail_cons depth k y l :
  object_tail depth ((k, y) :: l)
  = "," +:+ nl +:+ indentation (S depth) +:+ Comparer.quote k +:+ ": "
    +:+ stringify_at (S depth) y +:+ object_tail depth l.
Proof. reflexivity. Qed.

Lemma skip_whitespace_indentation depth s :
  skip_whitespace (indentation depth +:+ s) = skip_whitespace s.
Proof. induction depth as [|d IH]; [reflexivity|exact IH]. Qed.

Lemma skip_whitespace_line depth s :
  skip_whitespace (nl +:+ indentation depth +:+ s) = skip_whitespace s.
Proof. exact (skip_whitespace_indentation depth s). Qed.

Lemma pretty_N_char_opens (d : N) :
  opens_value (pretty_N_char d) = true
  /\ (digit_value (pretty_N_char d) <> None).
Proof.
  destruct d as [|p]; [split; [reflexivity|discriminate]|].
  do 4 (destruct p as [p|p|]; try (split; [reflexivity|discriminate])).
Qed.

Lemma stringify_head depth v rest :
  exists c tail,
    stringify_at depth v +:+ rest = String c tail /\ opens_value c = true.
Proof.
  destruct v as [|[|]|z|[| |]|s|[|x items]|[|[k x] fields]];
    try (eexists _, _; split; [reflexivity|reflexivity]).
  destruct z as [|p|p].
  - eexists _, _; split; reflexivity.
  - change (stringify_at depth (JNumber (Z.pos p))) with (pretty (N.pos p)).
    unfold pretty, pretty_N. rewrite decide_False by discriminate.
    rewrite pretty_N_go_app.
    destruct (pretty_N_go_head (N.pos p) ltac:(lia) ("" +:+ rest)) as (d & tail & _ & ->).
    eexists _, _. split; [reflexivity|]. apply pretty_N_char_opens.
  - eexists _, _; split; reflexivity.
Qed.

Lemma skip_whitespace_head c tail :
  opens_value c = true -> skip_whitespace (String c tail) = String c tail.
Proof.
  intros H. cbn [skip_whitespace]. unfold opens_value in H.
  destruct (is_whitespace c); [discriminate|reflexivity].
Qed.

Lemma parse_value_skip fuel a b :
  skip_whitespace a = skip_whitespace b -> parse_value fuel a = parse_value fuel b.
Proof. intros H. destruct fuel; [reflexivity|]. cbn [parse_value]. now rewrite H. Qed.

Lemma parse_members_skip fuel a b :
  skip_whitespace a = skip_whitespace b -> parse_members fuel a = parse_members fuel b.
Proof. intros H. destruct fuel; [reflexivity|]. cbn [parse_members]. now rewrite H. Qed.

Lemma parse_value_number fuel c tail :
  digit_value c <> None \/ nat_of_ascii c = 45 ->
  parse_value (S fuel) (String c tail) = parse_number (String c tail).
Proof.
  destruct c as [b0 b1 b2 b3 b4 b5 b6 b7].
  destruct b0, b1, b2, b3, b4, b5, b6, b7;
    try reflexivity; intros [H|H]; try (exfalso; apply H; reflexivity); discriminate H.
Qed.

Lemma continues_number_array_tail depth l rest :
  continues_number (array_tail depth l +:+ rest) = false.
Proof. destruct l; reflexivity. Qed.

Lemma continues_number_object_tail depth l rest :
  continues_number (object_tail depth l +:+ rest) = false.
Proof. destruct l as [|[k y] l]; reflexivity. Qed.

Lemma parse_elements_tail (depth : nat) (rest : string) (l : list JsValue) :
  Forall reads_back l ->
  forall x fuel,
    reads_back x -> storable x = true -> items_storable l = true ->
    S (size x) + items_size l <= fuel ->
    parse_elements fuel
      (nl +:+ indentation (S depth) +:+ stringify_at (S depth) x
       +:+ array_tail depth l +:+ rest)
    = Some (x :: l, rest).
Proof.
  induction 1 as [|y l Hy _ IH]; intros x fuel Hx Sx Sl Hfuel.
  - destruct fuel as [|fuel]; [cbn in Hfuel; lia|]. cbn [parse_elements].
    rewrite (parse_value_skip fuel _ (stringify_at (S depth) x
                                      +:+ array_tail depth [] +:+ rest))
      by apply skip_whitespace_line.
    rewrite (Hx Sx (S depth) fuel _ ltac:(cbn in Hfuel; lia)
               (continues_number_array_tail depth [] rest)).
    unfold array_tail. rewrite !append_assoc, skip_whitespace_line. reflexivity.
  - destruct fuel as [|fuel]; [cbn in Hfuel; lia|]. cbn [parse_elements].
    rewrite (parse_value_skip fuel _ (stringify_at (S depth) x
                                      +:+ array_tail depth (y :: l) +:+ rest))
      by apply skip_whitespace_line.
    change (items_size (y :: l)) with (S (size y) + items_size l) in Hfuel.
    rewrite (Hx Sx (S depth) fuel _ ltac:(lia)
               (continues_number_array_tail depth (y :: l) rest)).
    rewrite array_tail_cons, !append_assoc.
    change ("," +:+ ?s) with (String "," s). cbn [skip_whitespace].
    change (is_whitespace ",") with false. cbn iota.
    change (Nat.eqb (nat_of_ascii ",") 44) with true. cbn iota.
    change (items_storable (y :: l)) with (storable y && items_storable l) in Sl.
    apply andb_true_iff in Sl as [Sy Sl].
    rewrite (IH y fuel Hy Sy Sl ltac:(lia)). reflexivity.
Qed.


Lemma parse_members_tail (depth : nat) (rest : string) (l : list (string * JsValue)) :
  Forall (fun f => reads_back (snd f)) l ->
  forall k x fuel,
    reads_back x -> storable x = true -> fields_storable l = true ->
    S (size x) + fields_size l <= fuel ->
    parse_members fuel
      (nl +:+ indentation (S depth) +:+ Comparer.quote k +:+ ": "
       +:+ stringify_at (S depth) x +:+ object_tail depth l +:+ rest)
    = Some ((k, x) :: l, rest).
Proof.
  induction 1 as [|[k' y] l Hy _ IH]; intros k x fuel Hx Sx Sl Hfuel.
  - destruct fuel as [|fuel]; [cbn in Hfuel; lia|]. cbn [parse_members].
    rewrite skip_whitespace_line. unfold Comparer.quote. rewrite !append_assoc.
    change (dq +:+ ?s) with (String (ascii_of_nat 34) s). cbn [skip_whitespace].
    change (is_whitespace (ascii_of_nat 34)) with false. cbn iota.
    change (Nat.eqb (nat_of_ascii (ascii_of_nat 34)) 34) with true. cbn iota.
    change (String (ascii_of_nat 34) ?s) with (dq +:+ s).
    rewrite parse_characters_quote.
    change (": " +:+ ?s) with (String ":" (String " " s)). cbn [skip_whitespace].
    change (is_whitespace ":") with false. cbn iota.
    change (Nat.eqb (nat_of_ascii ":") 58) with true. cbn iota.
    rewrite (parse_value_skip fuel _ (stringify_at (S depth) x
                                      +:+ object_tail depth [] +:+ rest))
      by reflexivity.
    rewrite (Hx Sx (S depth) fuel _ ltac:(cbn in Hfuel; lia)
               (continues_number_object_tail depth [] rest)).
    unfold object_tail. rewrite !append_assoc, skip_whitespace_line. reflexivity.
  - destruct fuel as [|fuel]; [cbn in Hfuel; lia|]. cbn [parse_members].
    rewrite skip_whitespace_line. unfold Comparer.quote at 1. rewrite !append_assoc.
    change (dq +:+ ?s) with (String (ascii_of_nat 34) s). cbn [skip_whitespace].
    change (is_whitespace (ascii_of_nat 34)) with false. cbn iota.
    change (Nat.eqb (nat_of_ascii (ascii_of_nat 34)) 34) with true. cbn iota.
    change (String (ascii_of_nat 34) ?s) with (dq +:+ s).
    rewrite parse_characters_quote.
    change (": " +:+ ?s) with (String ":" (String " " s)). cbn [skip_whitespace].
    change (is_whitespace ":") with false. cbn iota.
    change (Nat.eqb (nat_of_ascii ":") 58) with true. cbn iota.
    rewrite (parse_value_skip fuel _ (stringify_at (S depth) x
                                      +:+ object_tail depth ((k', y) :: l) +:+ rest))
      by reflexivity.
    change (fields_size ((k', y) :: l)) with (S (size y) + fields_size l) in Hfuel.
    rewrite (Hx Sx (S depth) fuel _ ltac:(lia)
               (continues_number_object_tail depth ((k', y) :: l) rest)).
    rewrite object_tail_cons, !append_assoc.
    change ("," +:+ ?s) with (String "," s). cbn [skip_whitespace].
    change (is_whitespace ",") with false. cbn iota.
    change (Nat.eqb (nat_of_ascii ",") 44) with true. cbn iota.
    change (fields_storable ((k', y) :: l)) with (storable y && fields_storable l) in Sl.
    apply andb_true_iff in Sl as [Sy Sl]. cbn [snd] in Hy.
    rewrite (IH k' y fuel Hy Sy Sl ltac:(lia)). reflexivity.
Qed.

Lemma pretty_head (z : Z) (rest : string) :
  exists c tail,
    pretty z +:+ rest = String c tail
    /\ (digit_value c <> None \/ nat_of_ascii c = 45).
Proof.
  destruct z as [|p|p].
  - eexists _, _. split; [reflexivity|left; discriminate].
  - change (pretty (Z.pos p)) with (pretty (N.pos p)).
    unfold pretty, pretty_N. rewrite decide_False by discriminate.
    rewrite pretty_N_go_app.
    destruct (pretty_N_go_head (N.pos p) ltac:(lia) ("" +:+ rest)) as (d & tail & _ & ->).
    eexists _, _. split; [reflexivity|left; apply pretty_N_char_opens].
  - eexists _, _. split; [reflexivity|right; reflexivity].
Qed.

Lemma parse_value_string fuel tail :
  parse_value (S fuel) (dq +:+ tail)
  = match parse_characters tail with
    | Some (text, rest) => Some (JString text, rest)
    | None => None
    end.
Proof. reflexivity. Qed.

Lemma parse_value_array fuel tail :
  parse_value (S fuel) ("[" +:+ tail)
  = match skip_whitespace tail with
    | String c rest =>
        if Nat.eqb (nat_of_ascii c) 93 then Some (JArray [], rest)
        else match parse_elements fuel tail with
             | Some (items, rest') => Some (JArray items, rest')
             | None => None
             end
    | EmptyString => None
    end.
Proof. reflexivity. Qed.

Lemma parse_value_object fuel tail :
  parse_value (S fuel) ("{" +:+ tail)
  = match skip_whitespace tail with
    | String c rest =>
        if Nat.eqb (nat_of_ascii c) 125 then Some (JObject [], rest)
        else match parse_members fuel tail with
             | Some (members, rest') => Some (object_of members, rest')
             | None => None
             end
    | EmptyString => None
    end.
Proof. reflexivity. Qed.

Lemma opens_value_not_closing c :
  opens_value c = true ->
  Nat.eqb (nat_of_ascii c) 93 = false /\ Nat.eqb (nat_of_ascii c) 125 = false.
Proof.
  unfold opens_value. intros H.
  repeat (apply andb_true_iff in H as [H ?]).
  split; now apply negb_true_iff.
Qed.

Lemma parse_stringify_at (v : JsValue) : reads_back v.
Proof.
  induction v as [| b | z | x | s | items IH | fields IH] using JsValue_ind';
    intros Hs depth fuel rest Hfuel Hrest.
  - destruct fuel as [|fuel]; [cbn in Hfuel; lia|]. reflexivity.
  - destruct fuel as [|fuel]; [cbn in Hfuel; lia|]. destruct b; reflexivity.
  - destruct fuel as [|fuel]; [cbn in Hfuel; lia|].
    change (stringify_at depth (JNumber z)) with (pretty z).
    destruct (pretty_head z rest) as (c & tail & Heq & Hc).
    rewrite Heq, (parse_value_number fuel c tail Hc), <- Heq.
    now apply parse_number_pretty.
  - discriminate Hs.
  - destruct fuel as [|fuel]; [cbn in Hfuel; lia|].
    change (stringify_at depth (JString s)) with (Comparer.quote s).
    unfold Comparer.quote. rewrite !append_assoc, parse_value_string.
    now rewrite parse_characters_quote.
  - destruct fuel as [|fuel]; [cbn in Hfuel; lia|].
    destruct items as [|x l]; [reflexivity|].
    apply Forall_cons in IH as [Hx Hl].
    change (storable (JArray (x :: l))) with (storable x && items_storable l) in Hs.
    apply andb_true_iff in Hs as [Sx Sl].
    change (size (JArray (x :: l))) with (S (S (size x) + items_size l)) in Hfuel.
    rewrite stringify_at_array, !append_assoc, parse_value_array.
    rewrite (parse_elements_tail depth rest l Hl x fuel Hx Sx Sl ltac:(lia)).
    rewrite skip_whitespace_line.
    destruct (stringify_head (S depth) x (array_tail depth l +:+ rest))
      as (c & tail & Heq & Hc).
    rewrite Heq, (skip_whitespace_head c tail Hc).
    destruct (opens_value_not_closing c Hc) as [-> _].
    reflexivity.
  - destruct fuel as [|fuel]; [cbn in Hfuel; lia|].
    destruct fields as [|[k x] l]; [reflexivity|].
    apply Forall_cons in IH as [Hx Hl]. cbn [snd] in Hx.
    change (storable (JObject ((k, x) :: l)))
      with (enumeration_order ((k, x) :: l) && (storable x && fields_storable l)) in Hs.
    apply andb_true_iff in Hs as [Horder Hs]. apply andb_true_iff in Hs as [Sx Sl].
    change (size (JObject ((k, x) :: l))) with (S (S (size x) + fields_size l)) in Hfuel.
    rewrite stringify_at_object, !append_assoc, parse_value_object.
    rewrite (parse_members_tail depth rest l Hl k x fuel Hx Sx Sl ltac:(lia)).
    rewrite skip_whitespace_line.
    destruct (stringify_head 0 (JString k)
                (": " +:+ stringify_at (S depth) x +:+ object_tail depth l +:+ rest))
      as (c & tail & Heq & Hc).
    change (stringify_at 0 (JString k)) with (Comparer.quote k) in Heq.
    rewrite Heq, (skip_whitespace_head c tail Hc).
    destruct (opens_value_not_closing c Hc) as [_ ->].
    now rewrite (object_of_fields _ Horder).
Qed.

Lemma size_stringify (v : JsValue) :
  forall depth, size v <= String.length (stringify_at depth v).
Proof.
  induction v as [| b | z | x | s | items IH | fields IH] using JsValue_ind';
    intros depth.
  - cbn. lia.
  - destruct b; cbn; lia.
  - destruct (pretty_head z "") as (c & tail & Heq & _).
    change (stringify_at depth (JNumber z)) with (pretty z).
    assert (H : String.length (pretty z +:+ "") = String.length (pretty z))
      by (rewrite length_app_string; cbn; lia).
    rewrite <- H, Heq. cbn. lia.
  - destruct x; cbn; lia.
  - change (stringify_at depth (JString s)) with (Comparer.quote s).
    unfold Comparer.quote. rewrite !length_app_string. cbn. lia.
  - destruct items as [|x l]; [cbn; lia|].
    apply Forall_cons in IH as [Hx Hl].
    change (size (JArray (x :: l))) with (S (S (size x) + items_size l)).
    rewrite stringify_at_array, !length_app_string.
    specialize (Hx (S depth)).
    assert (Htail : items_size l < String.length (array_tail depth l)).
    { clear Hx. induction Hl as [|y l Hy _ IHl].
      - unfold array_tail. rewrite !length_app_string. cbn. lia.
      - rewrite array_tail_cons, !length_app_string.
        change (items_size (y :: l)) with (S (size y) + items_size l).
        specialize (Hy (S depth)). cbn [String.length nl]. lia. }
    cbn [String.length nl]. lia.
  - destruct fields as [|[k x] l]; [cbn; lia|].
    apply Forall_cons in IH as [Hx Hl]. cbn [snd] in Hx.
    change (size (JObject ((k, x) :: l))) with (S (S (size x) + fields_size l)).
    rewrite stringify_at_object, !length_app_string.
    specialize (Hx (S depth)).
    assert (Htail : fields_size l < String.length (object_tail depth l)).
    { clear Hx. induction Hl as [|[k' y] l Hy _ IHl].
      - unfold object_tail. rewrite !length_app_string. cbn. lia.
      - rewrite object_tail_cons, !length_app_string.
        change (fields_size ((k', y) :: l)) with (S (size y) + fields_size l).
        cbn [snd] in Hy. specialize (Hy (S depth)). cbn [String.length nl]. lia. }
    cbn [String.length nl]. lia.
Qed.

Lemma append_empty (s : string) : s +:+ "" = s.
Proof.
  induction s as [|c s IH]; [reflexivity|].
  change (String c (s +:+ "") = String c s). now f_equal.
Qed.

(** [JSON.parse] reads a storable document back from the text
    [JSON.stringify] makes of it. *)
Lemma parse_stringify (v : JsValue) :
  storable v = true -> parse (stringify v) = Returns v.
Proof.
  intros Hs. unfold parse, stringify.
  pose proof (parse_stringify_at v Hs 0 (S (String.length (stringify_at 0 v))) ""
                ltac:(pose proof (size_stringify v 0); lia) eq_refl) as H.
  rewrite append_empty in H. rewrite H. reflexivity.
Qed.

End JsonFacts.

Example stringify_state :
  Json.stringify Samples.state
  = "{" +:+ Js.nl +:+ "  " +:+ Js.dq +:+ "a" +:+ Js.dq +:+ ": 1" +:+ Js.nl +:+ "}".
Proof. reflexivity. Qed.

Example stringify_nested :
  Json.stringify (Js.JArray [Js.JNumber (-12); Js.JObject []; Js.JArray [Js.JNull]])
  = "[" +:+ Js.nl +:+ "  -12," +:+ Js.nl +:+ "  {}," +:+ Js.nl
    +:+ "  [" +:+ Js.nl +:+ "    null" +:+ Js.nl +:+ "  ]" +:+ Js.nl +:+ "]".
Proof. reflexivity. Qed.

(** An array index goes before the other keys, a repeated key keeps its
    place and takes the later value, and [-0] is read as negative zero. *)
Example parse_orders_keys :
  Json.parse ("{" +:+ Js.dq +:+ "b" +:+ Js.dq +:+ ": 1, "
              +:+ Js.dq +:+ "7" +:+ Js.dq +:+ ": [true, null], "
              +:+ Js.dq +:+ "b" +:+ Js.dq +:+ ": -0}")
  = Js.Returns
      (Js.JObject [("7", Js.JArray [Js.JBool true; Js.JNull]);
                   ("b", Js.JSpecial Js.NegativeZero)]).
Proof. vm_compute. reflexivity. Qed.

(** ** The state store over JSON text *)

Section StorageRoundTrip.
Import Js Eff Storage.
Variable config : Config.
Variable dirname : string -> string.


End StorageRoundTrip.



(** ** The orchestrator *)

Section OrchestratorFacts.
Import Js Orchestrator.
Local Open Scope prog_scope.

(** The semantics of a cycle is compositional: sequencing, [try]/[catch] and
    [try]/[finally]. *)
Lemma run_bind w {A B} (p : Prog A) (f : A -> Prog B) g :
  run w (bind p f) g
  = match run w p g with
    | (Returns a, g1, t1) =>
        match run w (f a) g1 with
        | (r, g2, t2) => (r, g2, t1 ++ t2)
        end
    | (Throws e, g1, t1) => (Throws e, g1, t1)
    end.
Proof.
  revert g. induction p as [a|e|R c k IH]; intros g.
  - cbn. destruct (run w (f a) g) as [[r g2] t2]. reflexivity.
  - reflexivity.
  - destruct c; cbn; rewrite ?IH;
      repeat match goal with
             | |- context [run w (k ?x) ?g'] =>
                 destruct (run w (k x) g') as [[[?|?] ?] ?]
             | |- context [run w (f ?x) ?g'] =>
                 destruct (run w (f x) g') as [[? ?] ?]
             end; reflexivity.
Qed.

Lemma run_try_catch w {A} (p : Prog A) h g :
  run w (try_catch p h) g
  = match run w p g with
    | (Returns a, g1, t1) => (Returns a, g1, t1)
    | (Throws e, g1, t1) =>
        match run w (h e) g1 with
        | (r, g2, t2) => (r, g2, t1 ++ t2)
        end
    end.
Proof.
  revert g. induction p as [a|e|R c k IH]; intros g.
  - reflexivity.
  - cbn. destruct (run w (h e) g) as [[r g2] t2]. reflexivity.
  - destruct c; cbn; rewrite ?IH;
      repeat match goal with
             | |- context [run w (k ?x) ?g'] =>
                 destruct (run w (k x) g') as [[[?|?] ?] ?]
             | |- context [run w (h ?x) ?g'] =>
                 destruct (run w (h x) g') as [[? ?] ?]
             end; reflexivity.
Qed.

Lemma run_finally w {A} (p : Prog A) q g :
  run w (finally p q) g
  = match run w p g with
    | (r, g1, t1) =>
        match run w q g1 with
        | (Returns _, g2, t2) => (r, g2, t1 ++ t2)
        | (Throws e, g2, t2) => (Throws e, g2, t1 ++ t2)
        end
    end.
Proof.
  revert g. induction p as [a|e|R c k IH]; intros g.
  - cbn. rewrite run_bind. destruct (run w q g) as [[[[]|e] g2] t2]; cbn;
      rewrite ?app_nil_r; reflexivity.
  - cbn. rewrite run_bind. destruct (run w q g) as [[[[]|e'] g2] t2]; cbn;
      rewrite ?app_nil_r; reflexivity.
  - destruct c; cbn; rewrite ?IH;
      repeat match goal with
             | |- context [run w (k ?x) ?g'] =>
                 destruct (run w (k x) g') as [[[?|?] ?] ?]
             | |- context [run w q ?g'] =>
                 destruct (run w q g') as [[[[]|?] ?] ?]
             end; reflexivity.
Qed.

Lemma unguarded_bind {A B} (p : Prog A) (f : A -> Prog B) :
  unguarded p -> (forall a, unguarded (f a)) -> unguarded (bind p f).
Proof.
  intros Hp Hf. induction Hp as [a|t|R c k Hc _ IH]; cbn; [apply Hf|constructor|].
  constructor; [exact Hc|exact IH].
Qed.

Lemma unguarded_try_catch {A} (p : Prog A) h :
  unguarded p -> (forall t, unguarded (h t)) -> unguarded (try_catch p h).
Proof.
  intros Hp Hh. induction Hp as [a|t|R c k Hc _ IH]; cbn; [constructor|apply Hh|].
  constructor; [exact Hc|exact IH].
Qed.

Lemma unguarded_await {A} (c : Call (Completion A)) :
  leaves_guard c = true -> unguarded (await c).
Proof. intros Hc. constructor; [exact Hc|]. intros [a|t]; constructor. Qed.

Lemma unguarded_console text : unguarded (console_log text).
Proof. constructor; [reflexivity|]. intros r. constructor. Qed.

Lemma unguarded_inline {A} (m : Eff.M unit (Level * list LogArg) A) : unguarded (inline m).
Proof.
  unfold inline. destruct (m tt) as [[r u] logs].
  induction logs as [|entry logs IH]; cbn.
  - destruct r; constructor.
  - constructor; [reflexivity|]. intros _. exact IH.
Qed.

Section WithDiff.
Variable diffJson : JsValue -> JsValue -> list Change.

Lemma unguarded_cycle_body : unguarded (cycle_body diffJson).
Proof.
  unfold cycle_body.
  apply unguarded_bind; [apply unguarded_await; reflexivity|]. intros currentState.
  destruct (negb (is_object currentState)); [constructor|].
  apply unguarded_bind; [apply unguarded_await; reflexivity|]. intros lastState.
  destruct (is_null lastState).
  - apply unguarded_bind; [apply unguarded_console|]. intros _.
    apply unguarded_await; reflexivity.
  - apply unguarded_bind; [apply unguarded_inline|]. intros changes.
    match goal with |- context [Nat.ltb 0 ?n] => destruct (Nat.ltb 0 n) end;
      [|apply unguarded_console].
    apply unguarded_bind; [apply unguarded_console|]. intros _.
    apply unguarded_bind; [apply unguarded_await; reflexivity|]. intros aiResult.
    apply unguarded_bind; [|intros _; apply unguarded_await; reflexivity].
    destruct (isWorthToReport aiResult); [|apply unguarded_console].
    apply unguarded_bind; [apply unguarded_console|]. intros _.
    apply unguarded_await; reflexivity.
Qed.

Lemma unguarded_cycle_handler error : unguarded (cycle_handler error).
Proof.
  unfold cycle_handler.
  apply unguarded_bind; [constructor; [reflexivity|intros; constructor]|]. intros _.
  apply unguarded_try_catch; [apply unguarded_await; reflexivity|].
  intros t. constructor; [reflexivity|intros; constructor].
Qed.

Lemma releasing_finally (p : Prog unit) :
  unguarded p -> releasing (finally p cycle_release).
Proof.
  intros Hp. induction Hp as [a|t|R c k Hc _ IH]; cbn.
  - apply releasing_release. apply quiet_vis; [reflexivity|reflexivity|]. intros _. constructor.
  - apply releasing_release. apply quiet_vis; [reflexivity|reflexivity|]. intros _. constructor.
  - apply releasing_vis; [exact Hc|exact IH].
Qed.

Lemma advance_quiet time p g :
  quiet p ->
  exists t r,
    advance time p g = (g, t, Finished r)
    /\ Forall (fun o => is_collaborator_call o = false) t.
Proof.
  intros Hq. induction Hq as [a|t|R c k Hc Ha _ IH].
  - exists [], (Returns a). split; [reflexivity|constructor].
  - exists [], (Throws t). split; [reflexivity|constructor].
  - destruct c; try discriminate; cbn.
    + destruct (IH tt) as (t & r & -> & Ht). exists (Logged level args :: t), r.
      split; [reflexivity|]. constructor; [reflexivity|exact Ht].
    + apply IH.
Qed.

Lemma advance_releasing time p :
  releasing p ->
  match advance time p true with
  | (g, _, Finished _) => g = false
  | (g, _, Suspended t) => g = true /\ task_releasing t
  end.
Proof.
  intros Hr. induction Hr as [k Hq|R c k Hc Hk IH].
  - cbn. destruct (advance_quiet time (k tt) false Hq) as (t & r & -> & _). reflexivity.
  - destruct c; try discriminate; cbn.
    + specialize (IH tt). destruct (advance time (k tt) true) as [[g t] st]. exact IH.
    + apply IH.
    + split; [reflexivity|exact Hk].
    + split; [reflexivity|exact Hk].
    + split; [reflexivity|exact Hk].
    + split; [reflexivity|exact Hk].
    + split; [reflexivity|exact Hk].
Qed.

Lemma trigger_running time m :
  isJobRunning m = true -> trigger diffJson time m = (m, [skip_log]).
Proof.
  intros Hr. unfold trigger. destruct m as [g tasks]. cbn in Hr. subst g. cbn.
  now rewrite app_nil_r.
Qed.

Lemma advance_idle time :
  match advance time (checkJsonUpdates diffJson) false with
  | (g, t, st) =>
      g = true /\ t = [start_log time; Fetched]
      /\ exists task, st = Suspended task /\ task_releasing task
  end.
Proof.
  pose proof (advance_releasing time _
                (releasing_finally _
                   (unguarded_try_catch _ _ unguarded_cycle_body
                      unguarded_cycle_handler))) as H.
  cbn in H. cbn. destruct H as [_ H].
  split; [reflexivity|]. split; [reflexivity|].
  eexists. split; [reflexivity|exact H].
Qed.

Lemma invariant_initial : invariant initial.
Proof. split; [constructor|reflexivity]. Qed.

Lemma invariant_step m t m' :
  invariant m -> step diffJson m t m' -> invariant m'.
Proof.
  intros [Hall Hlen] Hstep. destruct Hstep as [time m|time m before after R c k outcome Hin].
  - destruct (isJobRunning m) eqn:Hg.
    + rewrite trigger_running by exact Hg. cbn. split; [exact Hall|now rewrite Hg].
    + unfold trigger. rewrite Hg. pose proof (advance_idle time) as H.
      destruct (advance time (checkJsonUpdates diffJson) false) as [[g tr] st].
      destruct H as (-> & _ & task & -> & Htask). cbn.
      destruct (inflight m); [|discriminate]. cbn.
      split; [constructor; [exact Htask|constructor]|reflexivity].
  - rewrite Hin in Hall, Hlen. rewrite length_app in Hlen. cbn in Hlen.
    destruct (isJobRunning m); [|lia].
    destruct before; [|cbn in Hlen; lia]. destruct after; [|cbn in Hlen; lia].
    apply Forall_app in Hall as [_ Hall]. apply Forall_cons in Hall as [Hk _].
    unfold resume. pose proof (advance_releasing time (k outcome) (Hk outcome)) as H.
    destruct (advance time (k outcome) true) as [[g tr] [r|task]]; cbn.
    + subst g. split; [constructor|reflexivity].
    + destruct H as [-> Htask]. split; [constructor; [exact Htask|constructor]|reflexivity].
Qed.

Lemma reachable_invariant m : reachable diffJson m -> invariant m.
Proof.
  induction 1 as [|m t m' _ IH Hstep]; [apply invariant_initial|].
  exact (invariant_step m t m' IH Hstep).
Qed.

Lemma run_quiet w p g : quiet p -> snd (fst (run w p g)) = g.
Proof.
  intros Hq. induction Hq as [a|t|R c k Hc Ha _ IH]; [reflexivity|reflexivity|].
  destruct c; try discriminate; cbn.
  - specialize (IH tt). destruct (run w (k tt) g) as [[r g'] t]. exact IH.
  - apply IH.
Qed.

Lemma run_releasing w p g : releasing p -> snd (fst (run w p g)) = false.
Proof.
  intros Hr. revert g. induction Hr as [k Hq|R c k Hc _ IH]; intros g.
  - cbn. apply run_quiet, Hq.
  - destruct c; try discriminate; cbn;
      try (match goal with
           | |- context [run w (k ?x) g] =>
               specialize (IH x g); destruct (run w (k x) g) as [[r g'] t]; exact IH
           end).
Qed.

(** A cycle leaves the guard released, whatever its body does: the body may
    return, throw an error nothing catches, or await any number of calls. *)
Lemma finally_releases_guard w (p : Prog unit) g :
  unguarded p -> snd (fst (run w (finally p cycle_release) g)) = false.
Proof. intros Hp. apply run_releasing, releasing_finally, Hp. Qed.

Lemma checkJsonUpdates_releases_guard w :
  snd (fst (run w (checkJsonUpdates diffJson) false)) = false.
Proof.
  unfold checkJsonUpdates. cbn -[finally try_catch cycle_body cycle_handler cycle_release].
  pose proof (finally_releases_guard w
                (try_catch (cycle_body diffJson) cycle_handler) true
                (unguarded_try_catch _ _ unguarded_cycle_body unguarded_cycle_handler)) as H.
  destruct (run w (finally (try_catch (cycle_body diffJson) cycle_handler) cycle_release) true)
    as [[r g] t].
  exact H.
Qed.

(** C1: in every state the process can reach, at most one invocation of
    [checkJsonUpdates] is in flight, and [isJobRunning] is set exactly while
    one is; a trigger while a cycle is running changes nothing and only logs
    that it is skipped (no fetch, no read or write of the state, no summary,
    no notification); the [finally] block resets the guard on every exit of
    the cycle, also when the cycle ends with an error nothing caught; and a
    trigger on the idle process starts a cycle (it sets the guard and
    fetches). *)
Theorem checkJsonUpdates_single_flight m :
  reachable diffJson m ->
  List.length (inflight m) <= 1
  /\ (isJobRunning m = true <-> inflight m <> [])
  /\ (isJobRunning m = true ->
      forall time, trigger diffJson time m = (m, [skip_log]))
  /\ (forall w (body : Prog unit) g,
        unguarded body -> snd (fst (run w (finally body cycle_release) g)) = false)
  /\ (forall w, snd (fst (run w (checkJsonUpdates diffJson) false)) = false)
  /\ (isJobRunning m = false ->
      forall time,
      exists task,
        trigger diffJson time m
        = ({| isJobRunning := true; inflight := [task] |}, [start_log time; Fetched])).
Proof.
  intros Hreach. destruct (reachable_invariant m Hreach) as [Hall Hlen].
  split; [destruct (isJobRunning m); lia|].
  split.
  { destruct (isJobRunning m), (inflight m); cbn in Hlen; split; intros H;
      try discriminate; try reflexivity; try congruence. }
  split; [intros Hg time; apply trigger_running, Hg|].
  split; [intros w body g; apply finally_releases_guard|].
  split; [apply checkJsonUpdates_releases_guard|].
  intros Hg time. rewrite Hg in Hlen.
  unfold trigger. rewrite Hg. pose proof (advance_idle time) as H.
  destruct (advance time (checkJsonUpdates diffJson) false) as [[g tr] st].
  destruct H as (-> & -> & task & -> & _).
  destruct (inflight m); [|discriminate]. exists task. reflexivity.
Qed.

Lemma cycle_handler_returns w error g :
  exists t, run w (cycle_handler error) g = (Returns tt, g, t).
Proof.
  unfold cycle_handler. cbn.
  match goal with |- context [notify w ?m] => destruct (notify w m) as [[]|e] end;
    cbn; eauto.
Qed.

(** The top-level handler never re-raises: whatever the collaborators do, a
    call of [checkJsonUpdates] returns. *)
Theorem checkJsonUpdates_never_throws w g :
  fst (fst (run w (checkJsonUpdates diffJson) g)) = Returns tt.
Proof.
  unfold checkJsonUpdates. cbn -[finally try_catch cycle_body cycle_handler cycle_release].
  destruct g; [reflexivity|].
  cbn -[finally try_catch cycle_body cycle_handler cycle_release].
  rewrite run_finally, run_try_catch.
  destruct (run w (cycle_body diffJson) true) as [[[[]|e] g1] t1].
  - cbn. reflexivity.
  - destruct (cycle_handler_returns w e g1) as [t ->]. cbn. reflexivity.
Qed.

(** A cycle whose fetch fails writes nothing and asks for no summary; it
    attempts one notification, of the error. *)
Theorem checkJsonUpdates_fetch_failure w error :
  fetch w = Throws error ->
  let trace := snd (run w (checkJsonUpdates diffJson) false) in
  writes trace = [] /\ summaries trace = []
  /\ exists text, notifications trace = [text].
Proof.
  intros Hfetch. cbv zeta. unfold checkJsonUpdates, cycle_body. cbn. rewrite Hfetch. cbn.
  match goal with |- context [notify w ?m] => destruct (notify w m) as [[]|e] end;
    cbn; repeat split; eauto.
Qed.
(** C2: in a cycle in which the fetch yields a document, the read of the last
    state succeeds and neither the summarizer nor the notifier throws,
    [writeState] is called, with the fetched document, exactly when there is
    no last state or [compareJson] found a change set; with a change set the
    write happens whatever the verdict of the summarizer; without one nothing
    is written, no summary is asked for and no notification is sent. *)
Theorem checkJsonUpdates_persists (w : World) current last :
  fetch w = Returns current -> is_object current = true ->
  readLast w = Returns last ->
  (forall changes, exists summary, summarize w changes = Returns summary) ->
  (forall text, notify w text = Returns tt) ->
  let trace := snd (run w (checkJsonUpdates diffJson) false) in
  if is_null last then
    writes trace = [current] /\ summaries trace = []
  else
    match Comparer.outcome (Comparer.compareJson diffJson last current) with
    | Returns (Some changes) =>
        writes trace = [current] /\ summaries trace = [changes]
        /\ (forall summary,
              summarize w changes = Returns summary ->
              (isWorthToReport summary = true ->
               In (update_message summary) (notifications trace))
              /\ (isWorthToReport summary = false -> write w current = Returns tt ->
                  notifications trace = []))
    | _ => writes trace = [] /\ summaries trace = [] /\ notifications trace = []
    end.
Proof.
  intros Hfetch Hobj Hread Hsum Hnotify. cbv zeta.
  unfold checkJsonUpdates, cycle_body. cbn. rewrite Hfetch. cbn. rewrite Hobj. cbn.
  rewrite Hread. cbn.
  destruct (is_null last) eqn:Hnull; cbn.
  - destruct (write w current) as [[]|e] eqn:Hw; cbn.
    + split; reflexivity.
    + rewrite Hnotify. cbn. split; reflexivity.
  - unfold Comparer.outcome, inline, Comparer.compareJson, Eff.bind, Comparer.log,
      Eff.emit, Eff.ret.
    destruct (String.eqb (Comparer.stringify last) (Comparer.stringify current)); cbn;
      [repeat split; reflexivity|].
    destruct (filter (fun part => is_actual part = true) (diffJson last current))
      as [|part parts] eqn:Hf; [cbn; repeat split; reflexivity|].
    cbn -[filter].
    assert (Hff : filter (fun c => is_actual c = true) (part :: parts) = part :: parts).
    { rewrite <- Hf. apply list_filter_filter_l. auto. }
    rewrite !Hff. cbn.
    destruct (Hsum (part :: parts)) as [summary Hs]. rewrite Hs. cbn.
    destruct (isWorthToReport summary) eqn:Hv; cbn.
    + rewrite Hnotify. cbn.
      destruct (write w current) as [[]|e] eqn:Hw; cbn; rewrite ?Hnotify; cbn;
        (split; [reflexivity|]); (split; [reflexivity|]);
        intros summary' Hs'; injection Hs' as <-; rewrite Hv;
        (split; [intros _; left; reflexivity|discriminate]).
    + destruct (write w current) as [[]|e] eqn:Hw; cbn; rewrite ?Hnotify; cbn;
        (split; [reflexivity|]); (split; [reflexivity|]);
        intros summary' Hs'; injection Hs' as <-; rewrite Hv;
        (split; [discriminate|]); intros _ Hw'; try discriminate; reflexivity.
Qed.
End WithDiff.

End OrchestratorFacts.

Example first_trigger_fetches :
  snd (Orchestrator.trigger Samples.whole_document_diff "t0" Orchestrator.initial)
  = [Orchestrator.start_log "t0"; Orchestrator.Fetched].
Proof. reflexivity. Qed.

Lemma checkJsonUpdates_single_flight_witness :
  Orchestrator.reachable Samples.whole_document_diff
    (fst (Orchestrator.trigger Samples.whole_document_diff "t0" Orchestrator.initial))
  /\ List.length
       (Orchestrator.inflight
          (fst (Orchestrator.trigger Samples.whole_document_diff "t0" Orchestrator.initial)))
     <= 1
  /\ Orchestrator.trigger Samples.whole_document_diff "t1"
       (fst (Orchestrator.trigger Samples.whole_document_diff "t0" Orchestrator.initial))
     = (fst (Orchestrator.trigger Samples.whole_document_diff "t0" Orchestrator.initial),
        [Orchestrator.skip_log]).
Proof.
  assert (Hreach : Orchestrator.reachable Samples.whole_document_diff
                     (fst (Orchestrator.trigger Samples.whole_document_diff "t0"
                             Orchestrator.initial))).
  { eapply Orchestrator.reachable_step; [apply Orchestrator.reachable_initial|].
    apply Orchestrator.step_trigger. }
  split; [exact Hreach|].
  destruct (checkJsonUpdates_single_flight Samples.whole_document_diff _ Hreach)
    as (Hlen & _ & Hskip & _).
  split; [exact Hlen|]. apply Hskip. reflexivity.
Defined.

Lemma checkJsonUpdates_persists_witness :
  Orchestrator.writes
    (snd (Orchestrator.run Samples.world
            (Orchestrator.checkJsonUpdates Samples.whole_document_diff) false))
  = [Samples.fetched]
  /\ Orchestrator.notifications
       (snd (Orchestrator.run Samples.world
               (Orchestrator.checkJsonUpdates Samples.whole_document_diff) false))
     = [].
Proof.
  pose proof (checkJsonUpdates_persists Samples.whole_document_diff Samples.world
                Samples.fetched Samples.state eq_refl eq_refl eq_refl
                (fun _ => ex_intro _ _ eq_refl) (fun _ => eq_refl)) as H.
  cbv zeta in H.
  change (Js.is_null Samples.state) with false in H. cbv iota in H.
  change (Comparer.outcome
            (Comparer.compareJson Samples.whole_document_diff Samples.state Samples.fetched))
    with (Js.Returns
            (Some [{| Js.value := Comparer.stringify Samples.state; Js.added := false;
                      Js.removed := true; Js.count := Some 1 |};
                   {| Js.value := Comparer.stringify Samples.fetched; Js.added := true;
                      Js.removed := false; Js.count := Some 1 |}])) in H.
  cbv iota beta in H.
  destruct H as (Hw & _ & Hn).
  split; [exact Hw|].
  exact (proj2 (Hn _ eq_refl) eq_refl eq_refl).
Defined.

Lemma checkJsonUpdates_fetch_failure_witness :
  Orchestrator.writes
    (snd (Orchestrator.run Samples.failing_world
            (Orchestrator.checkJsonUpdates Samples.whole_document_diff) false)) = []
  /\ Orchestrator.summaries
       (snd (Orchestrator.run Samples.failing_world
               (Orchestrator.checkJsonUpdates Samples.whole_document_diff) false)) = []
  /\ exists text,
       Orchestrator.notifications
         (snd (Orchestrator.run Samples.failing_world
                 (Orchestrator.checkJsonUpdates Samples.whole_document_diff) false))
       = [text].
Proof.
  exact (checkJsonUpdates_fetch_failure Samples.whole_document_diff Samples.failing_world
           (Js.new_Error "fetch failed") eq_refl).
Defined.

Lemma getBotInstance_cached_witness :
  Notifier.getBotInstance Samples.config
    (fun token => Js.Returns (Notifier.mkBot token)) Samples.disabled_vars
  = (Js.Returns None, Samples.disabled_vars, []).
Proof.
  exact (getBotInstance_cached Samples.config
           (fun token => Js.Returns (Notifier.mkBot token)) Samples.disabled_vars eq_refl).
Defined.

Lemma readLastState_absent_witness :
  exists events,
    Storage.readLastState Samples.config Samples.dirname Samples.JSON_parse
      Samples.file_system
    = (Js.Returns Js.JNull, Samples.file_system, events).
Proof.
  apply (readLastState_absent Samples.config Samples.dirname Samples.JSON_parse
           Samples.file_system).
  - apply not_elem_of_empty.
  - cbn. intros H. apply elem_of_singleton in H. discriminate.
  - apply not_elem_of_empty.
  - cbn. apply elem_of_singleton. reflexivity.
  - reflexivity.
Defined.

(** * Further properties *)

(** ** The shape of escaped text *)

Section EscapeShape.
Import Escape.

Lemma replace_all_guarded text : forall before i c,
  String.get i (replace_all before text) = Some c -> in_class c = true ->
  match i with
  | O => lookbehind_ok before = false
  | S j => String.get j (replace_all before text) = Some backslash
  end.
Proof.
  induction text as [|c0 rest IH]; intros before i c Hget Hc.
  - destruct i; discriminate.
  - cbn [replace_all] in *.
    destruct (lookbehind_ok before && in_class c0) eqn:Hesc.
    + destruct i as [|[|k]]; cbn in Hget |- *.
      * injection Hget as <-. rewrite in_class_backslash in Hc. discriminate.
      * reflexivity.
      * specialize (IH (Some c0) k c Hget Hc). destruct k as [|j].
        -- cbn in IH. apply negb_false_iff, Ascii.eqb_eq in IH. now subst.
        -- exact IH.
    + destruct i as [|k]; cbn in Hget |- *.
      * injection Hget as ->. rewrite Hc, andb_true_r in Hesc. exact Hesc.
      * specialize (IH (Some c0) k c Hget Hc). destruct k as [|j].
        -- cbn in IH. apply negb_false_iff, Ascii.eqb_eq in IH. now subst.
        -- exact IH.
Qed.

(** In the text [escapeMarkdownV2] returns, every reserved character stands
    right after a backslash; none is at the start of the text. *)
Theorem escapeMarkdownV2_output_guarded (text : string) (i : nat) (c : ascii) :
  String.get i (escapeMarkdownV2 text) = Some c ->
  in_class c = true ->
  exists j, i = S j /\ String.get j (escapeMarkdownV2 text) = Some backslash.
Proof.
  intros Hget Hc. pose proof (replace_all_guarded text None i c Hget Hc) as H.
  destruct i as [|j]; [discriminate|]. now exists j.
Qed.

Lemma replace_all_fixed text : forall before,
  replace_all before text = text <->
  (forall i c, String.get i text = Some c -> in_class c = true ->
     match i with
     | O => lookbehind_ok before = false
     | S j => String.get j text = Some backslash
     end).
Proof.
  induction text as [|c0 rest IH]; intros before.
  - split; [|reflexivity]. intros _ [|i] c H; discriminate.
  - cbn [replace_all].
    destruct (lookbehind_ok before && in_class c0) eqn:Hesc.
    + apply andb_true_iff in Hesc as [Hb Hc0]. split.
      * intros Heq. injection Heq as H1 _. rewrite <- H1 in Hc0.
        rewrite in_class_backslash in Hc0. discriminate.
      * intros H. specialize (H 0 c0 eq_refl Hc0). cbn in H. congruence.
    + split.
      * intros Heq. injection Heq as Heq.
        pose proof (proj1 (IH (Some c0)) Heq) as Hrest.
        intros [|k] c Hget Hc; cbn in Hget.
        -- injection Hget as ->. rewrite Hc, andb_true_r in Hesc. exact Hesc.
        -- specialize (Hrest k c Hget Hc). destruct k as [|j]; cbn.
           ++ cbn in Hrest. apply negb_false_iff, Ascii.eqb_eq in Hrest. now subst.
           ++ exact Hrest.
      * intros H. f_equal. apply (IH (Some c0)). intros k c Hget Hc.
        specialize (H (S k) c Hget Hc). destruct k as [|j]; cbn in H |- *.
        -- injection H as ->. reflexivity.
        -- exact H.
Qed.

(** [escapeMarkdownV2] returns its argument unchanged exactly when every
    reserved character of the argument already stands right after a
    backslash; a text without reserved characters is such a text. *)
Theorem escapeMarkdownV2_unchanged_iff (text : string) :
  escapeMarkdownV2 text = text <->
  (forall i c, String.get i text = Some c -> in_class c = true ->
     preceded_by_backslash text i = true).
Proof.
  unfold escapeMarkdownV2. rewrite replace_all_fixed. split; intros H i c Hget Hc.
  - specialize (H i c Hget Hc). destruct i as [|j]; [discriminate|].
    cbn. rewrite H. apply Ascii.eqb_refl.
  - specialize (H i c Hget Hc). destruct i as [|j]; [discriminate|].
    cbn in H. destruct (String.get j text) as [b|]; [|discriminate].
    apply Ascii.eqb_eq in H. now subst.
Qed.

Lemma replace_all_length text : forall before,
  String.length text <= String.length (replace_all before text) <= 2 * String.length text.
Proof.
  induction text as [|c0 rest IH]; intros before; cbn [replace_all String.length].
  - lia.
  - specialize (IH (Some c0)).
    destruct (lookbehind_ok before && in_class c0); cbn [String.length]; lia.
Qed.

(** Escaping only inserts backslashes, at most one per character: the result
    is at least as long as the text and at most twice as long. *)
Theorem escapeMarkdownV2_length (text : string) :
  String.length text <= String.length (escapeMarkdownV2 text) <= 2 * String.length text.
Proof. apply replace_all_length. Qed.

Lemma replace_all_app a : forall before b,
  replace_all before (a +:+ b)
  = replace_all before a +:+ replace_all (last_unit before a) b.
Proof.
  induction a as [|c0 rest IH]; intros before b.
  - reflexivity.
  - change (String c0 rest +:+ b) with (String c0 (rest +:+ b)).
    cbn [replace_all last_unit].
    destruct (lookbehind_ok before && in_class c0); rewrite IH; reflexivity.
Qed.

(** Escaping a concatenation is escaping its parts, when the first part does
    not end with a backslash. *)
Theorem escapeMarkdownV2_app (a b : string) :
  lookbehind_ok (last_unit None a) = true ->
  escapeMarkdownV2 (a +:+ b) = escapeMarkdownV2 a +:+ escapeMarkdownV2 b.
Proof.
  intros Hlast. unfold escapeMarkdownV2. rewrite replace_all_app.
  f_equal. destruct b as [|c rest]; [reflexivity|].
  cbn [replace_all]. rewrite Hlast. reflexivity.
Qed.

End EscapeShape.

Lemma escapeMarkdownV2_output_guarded_witness :
  exists j, 2 = S j
            /\ String.get j (Escape.escapeMarkdownV2 "a.b") = Some Escape.backslash.
Proof.
  exact (escapeMarkdownV2_output_guarded "a.b" 2 "."%char eq_refl eq_refl).
Defined.

Lemma escapeMarkdownV2_app_witness :
  Escape.escapeMarkdownV2 ("v1" +:+ ".2")
  = Escape.escapeMarkdownV2 "v1" +:+ Escape.escapeMarkdownV2 ".2".
Proof. exact (escapeMarkdownV2_app "v1" ".2" eq_refl). Defined.

(** ** The notifier over its lifetime *)

Section NotifierSequences.
Import Js Eff Notifier Observed Sequence.
Variable config : Config.
Variable construct : string -> Completion TelegramBot.
Variable sendMessage : TelegramBot -> string -> string -> string -> Settled.

(** What one call does to the client and to the outside. *)
Lemma sendTelegramNotification_step text vars :
  let result := sendTelegramNotification config construct sendMessage text vars in
  let vars' := snd (fst result) in
  isBotInitialized vars' = true
  /\ (isBotInitialized vars = true -> vars' = vars)
  /\ constructions (snd result)
     = (if isBotInitialized vars then []
        else if credentials_present config then [telegramBotToken config] else [])
  /\ sends (snd result)
     = match botInstance vars' with
       | Some _ => [(telegramChatId config, text, "MarkdownV2")]
       | None => []
       end
  /\ (isBotInitialized vars = false -> credentials_present config = true ->
      botInstance vars' = match construct (telegramBotToken config) with
                          | Returns bot => Some bot
                          | Throws _ => None
                          end).
Proof.
  unfold sendTelegramNotification, getBotInstance, bind, try_catch, get, put, assign,
    console, emit, settle, throw, ret.
  destruct vars as [b e i]; cbn.
  destruct i; cbn.
  - destruct b as [b|]; cbn.
    + destruct (sendMessage b (telegramChatId config) text "MarkdownV2");
        cbn; repeat split; try reflexivity; try discriminate.
    + destruct e; cbn; repeat split; try reflexivity; try discriminate.
  - destruct (credentials_present config); cbn.
    + destruct (construct (telegramBotToken config)) as [bot|err]; cbn.
      * destruct (sendMessage bot (telegramChatId config) text "MarkdownV2");
          cbn; repeat split; try reflexivity; try discriminate.
      * repeat split; try reflexivity; try discriminate.
    + destruct b as [b|]; cbn.
      * destruct (sendMessage b (telegramChatId config) text "MarkdownV2");
          cbn; repeat split; try reflexivity; try discriminate.
      * destruct e; cbn; repeat split; try reflexivity; try discriminate.
Qed.

Lemma send_all_cons text texts vars :
  send_all config construct sendMessage (text :: texts) vars
  = let result := sendTelegramNotification config construct sendMessage text vars in
    let rest := send_all config construct sendMessage texts (snd (fst result)) in
    (fst rest, snd result ++ snd rest).
Proof.
  cbn [send_all].
  destruct (sendTelegramNotification config construct sendMessage text vars) as [[r v1] ev1].
  cbn. destruct (send_all config construct sendMessage texts v1). reflexivity.
Qed.

(** Once the client is resolved, later calls leave the module variables as
    they are and construct nothing; they send each message when there is an
    instance and nothing when there is none. *)
Lemma send_all_initialized texts : forall vars,
  isBotInitialized vars = true ->
  fst (send_all config construct sendMessage texts vars) = vars
  /\ constructions (snd (send_all config construct sendMessage texts vars)) = []
  /\ sends (snd (send_all config construct sendMessage texts vars))
     = match botInstance vars with
       | Some _ => map (fun text => (telegramChatId config, text, "MarkdownV2")) texts
       | None => []
       end.
Proof.
  induction texts as [|text texts IH]; intros vars Hinit.
  - cbn. destruct (botInstance vars); auto.
  - rewrite send_all_cons. cbn zeta.
    destruct (sendTelegramNotification_step text vars) as (_ & Hsame & Hc & Hs & _).
    cbn zeta in Hsame, Hc, Hs. specialize (Hsame Hinit).
    rewrite Hsame in *. rewrite Hinit in Hc.
    destruct (IH vars Hinit) as (IH1 & IH2 & IH3).
    cbn [fst snd]. unfold constructions, sends in *. rewrite !omap_app.
    rewrite Hc, Hs, IH1, IH2, IH3.
    destruct (botInstance vars); auto.
Qed.

(** Over any number of notifications, from any state of the module, the
    client is constructed at most once. *)
Theorem notifier_constructs_at_most_once (texts : list string) (vars : Vars) :
  length (constructions (snd (send_all config construct sendMessage texts vars))) <= 1.
Proof.
  destruct texts as [|text texts]; [cbn; lia|].
  rewrite send_all_cons. cbn zeta.
  destruct (sendTelegramNotification_step text vars) as (Hinit & _ & Hc & _).
  cbn zeta in Hinit, Hc.
  destruct (send_all_initialized texts _ Hinit) as (_ & Hrest & _).
  cbn [snd]. unfold constructions in *. rewrite omap_app, Hc, Hrest, app_nil_r.
  destruct (isBotInitialized vars); [cbn; lia|].
  destruct (credentials_present config); cbn; lia.
Qed.

(** With credentials and a constructor that returns, every notification is
    handed to [sendMessage] once, in the order of the calls, with the
    configured chat, the text as given and the parse mode [MarkdownV2]; a
    send that fails does not stop the later ones. *)
Theorem notifier_sends_each_message (texts : list string) (bot : TelegramBot) :
  credentials_present config = true ->
  construct (telegramBotToken config) = Returns bot ->
  sends (snd (send_all config construct sendMessage texts initial))
  = map (fun text => (telegramChatId config, text, "MarkdownV2")) texts.
Proof.
  intros Hcred Hbot. destruct texts as [|text texts]; [reflexivity|].
  rewrite send_all_cons. cbn zeta.
  destruct (sendTelegramNotification_step text initial) as (Hinit & _ & _ & Hs & Hb).
  cbn zeta in Hinit, Hs, Hb. specialize (Hb eq_refl Hcred). rewrite Hbot in Hb.
  destruct (send_all_initialized texts _ Hinit) as (_ & _ & Hrest).
  rewrite Hb in Hs, Hrest.
  cbn [snd]. unfold sends in *. rewrite omap_app, Hs, Hrest. reflexivity.
Qed.

(** A constructor that throws on the first notification is not called
    again, and no message is ever sent: the failure is final for the
    lifetime of the module. *)
Theorem notifier_failed_start_is_final (texts : list string) (error : Thrown) :
  credentials_present config = true ->
  construct (telegramBotToken config) = Throws error ->
  constructions (snd (send_all config construct sendMessage texts initial))
  = match texts with [] => [] | _ => [telegramBotToken config] end
  /\ sends (snd (send_all config construct sendMessage texts initial)) = [].
Proof.
  intros Hcred Hthrow. destruct texts as [|text texts]; [auto|].
  rewrite send_all_cons. cbn zeta.
  destruct (sendTelegramNotification_step text initial) as (Hinit & _ & Hc & Hs & Hb).
  cbn zeta in Hinit, Hc, Hs, Hb. specialize (Hb eq_refl Hcred). rewrite Hthrow in Hb.
  destruct (send_all_initialized texts _ Hinit) as (_ & Hrc & Hrs).
  rewrite Hb in Hs, Hrs. rewrite Hcred in Hc.
  cbn [snd]. unfold sends, constructions in *. rewrite !omap_app, Hs, Hrs, Hc, Hrc. auto.
Qed.

End NotifierSequences.

Lemma notifier_sends_each_message_witness :
  Observed.sends
    (snd (Sequence.send_all Samples.config Samples.construct_ok Samples.send_ok
            ["first"; "second"] Notifier.initial))
  = map (fun text => (Js.telegramChatId Samples.config, text, "MarkdownV2"))
      ["first"; "second"].
Proof.
  exact (notifier_sends_each_message Samples.config Samples.construct_ok Samples.send_ok
           ["first"; "second"] (Notifier.mkBot "TOKEN") eq_refl eq_refl).
Defined.

Lemma notifier_failed_start_is_final_witness :
  Observed.constructions
    (snd (Sequence.send_all Samples.config Samples.construct_fails Samples.send_ok
            ["first"; "second"] Notifier.initial))
  = [Js.telegramBotToken Samples.config]
  /\ Observed.sends
       (snd (Sequence.send_all Samples.config Samples.construct_fails Samples.send_ok
               ["first"; "second"] Notifier.initial)) = [].
Proof.
  exact (notifier_failed_start_is_final Samples.config Samples.construct_fails
           Samples.send_ok ["first"; "second"] (Js.new_Error "401 Unauthorized")
           eq_refl eq_refl).
Defined.

(** ** The calls of the AI collaborator *)

Section AiProcessorCalls.
Import Js Eff AiProcessor.
Variable config : Config.
Variable generateObject : Request -> Completion JsValue.
Variable zod_message : list Issue -> string.

(** One call of [generateChangeSummary] asks the AI collaborator at most
    once, whatever it answers, and exactly once when the array holds an added
    or removed segment. *)
Theorem generateChangeSummary_single_attempt (changes : list Change) :
  let calls :=
    filter (fun e => is_call e = true)
      (snd (generateChangeSummary config generateObject zod_message (Some changes) tt)) in
  length calls <= 1
  /\ (length calls = 1 <-> Exists (fun c => is_actual c = true) changes).
Proof.
  cbv zeta. destruct (generateChangeSummary_cases config generateObject zod_message changes)
    as [_ Hcalls].
  cbv zeta in Hcalls. rewrite Hcalls.
  destruct (filter (fun c => is_actual c = true) changes) as [|c actual] eqn:Hf.
  - split; [cbn; lia|]. split; [discriminate|].
    intros Hex. apply filter_actual_nil in Hf.
    apply Exists_exists in Hex as (c & Hin & Hc).
    rewrite Forall_forall in Hf. specialize (Hf c Hin). congruence.
  - split; [cbn; lia|]. split; [|intros _; reflexivity]. intros _.
    assert (Hin : c ∈ filter (fun c => is_actual c = true) changes).
    { rewrite Hf. constructor. }
    apply list_elem_of_filter in Hin as [Hc Hin].
    apply Exists_exists. exists c. split; [exact Hin|exact Hc].
Qed.

(** A summary that is worth a report can only be the AI collaborator's own
    answer: the collaborator returned an object whose [isWorthToReport] is
    the boolean [true] and whose [reportedChanges] is the string that is
    returned. *)
Theorem generateChangeSummary_verdict_from_ai (changes : list Change) summary :
  fst (fst (generateChangeSummary config generateObject zod_message (Some changes) tt))
  = Returns summary ->
  isWorthToReport summary = true ->
  exists fields,
    generateObject (request_for config (filter (fun c => is_actual c = true) changes))
    = Returns (JObject fields)
    /\ get_field "isWorthToReport" fields = Some (JBool true)
    /\ get_field "reportedChanges" fields = Some (JString (reportedChanges summary)).
Proof.
  intros Hres Hworth.
  destruct (generateChangeSummary_cases config generateObject zod_message changes)
    as [Hcases _].
  cbv zeta in Hcases. rewrite Hcases in Hres. injection Hres as Hres.
  destruct (filter (fun c => is_actual c = true) changes) as [|c actual];
    [subst; discriminate|].
  destruct (generateObject (request_for config (c :: actual))) as [object|error];
    [|subst; discriminate].
  unfold safeParse in Hres.
  destruct object as [| | | | | |fields]; try (subst; discriminate).
  exists fields. split; [reflexivity|].
  destruct (get_field "isWorthToReport" fields) as [[|b| | | | |]|];
    try (subst; discriminate);
    destruct (get_field "reportedChanges" fields) as [[| | | |text| |]|];
    try (subst; discriminate).
  subst summary. cbn in Hworth. subst b. split; reflexivity.
Qed.

End AiProcessorCalls.

Lemma generateChangeSummary_verdict_from_ai_witness :
  exists fields,
    Js.Returns Samples.worthy_object = Js.Returns (Js.JObject fields)
    /\ Js.get_field "isWorthToReport" fields = Some (Js.JBool true)
    /\ Js.get_field "reportedChanges" fields = Some (Js.JString "b changed").
Proof.
  exact (generateChangeSummary_verdict_from_ai Samples.config
           (fun _ => Js.Returns Samples.worthy_object) Samples.render_issues
           [Samples.added_line]
           {| Js.isWorthToReport := true; Js.reportedChanges := "b changed" |}
           eq_refl eq_refl).
Defined.

(** ** The state store and the file system *)

Section StorageFrame.
Import Js Eff Storage Observed.
Variable config : Config.
Variable dirname : string -> string.
Variable JSON_stringify : JsValue -> string.
Variable JSON_parse : string -> Completion JsValue.

Ltac unfold_fs :=
  unfold writeState, readLastState, ensureStateDirectoryExists, writeFile, readFile,
    access, mkdir, try_catch, bind, get, put, emit, throw, ret, settle, console in *;
  cbn in *.

Ltac cases_fs :=
  repeat (match goal with
          | |- context [decide ?P] => destruct (decide P); cbn
          | |- context [files ?fs !! ?p] =>
              lazymatch goal with
              | H : files fs !! p = _ |- _ => rewrite H
              | _ => destruct (files fs !! p) eqn:?
              end; cbn
          | |- context [JSON_parse ?d] => destruct (JSON_parse d) eqn:?; cbn
          | |- context [is_ENOENT ?e] => destruct (is_ENOENT e) eqn:?; cbn
          end).

(** What [readLastState] throws is never a missing file or directory
    ([ENOENT] is the first run, answered with [null]); it is the error of the
    failed step itself, and the last thing the call did was to write it to
    [console.error]. *)
Theorem readLastState_throws fs error :
  fst (fst (readLastState config dirname JSON_parse fs)) = Throws error ->
  is_ENOENT error = false
  /\ last (snd (readLastState config dirname JSON_parse fs))
     = Some (Console ErrorLevel
               [Text ("Error reading state file " +:+ stateFilePath config +:+ ":");
                Value error]).
Proof.
  revert error. unfold_fs.
  cases_fs; intros error H; try discriminate; injection H as <-; auto.
Qed.

(** A [writeState] that throws has written the error it throws to
    [console.error], with the path of the state file, as the last thing it
    did, and has not logged a success. *)
Theorem writeState_throws state fs error :
  fst (fst (writeState config dirname JSON_stringify state fs)) = Throws error ->
  last (snd (writeState config dirname JSON_stringify state fs))
  = Some (Console ErrorLevel
            [Text ("Error writing state file " +:+ stateFilePath config +:+ ":");
             Value error])
  /\ ~ In (Console LogLevel
             [Text ("State successfully written to " +:+ stateFilePath config)])
          (snd (writeState config dirname JSON_stringify state fs)).
Proof.
  revert error. unfold_fs.
  cases_fs; intros error H; try discriminate; injection H as <-;
    (split; [reflexivity|]);
    intros Hin; repeat (destruct Hin as [Hin|Hin]; [discriminate|]); exact Hin.
Qed.

(** [writeState] writes at most once, to the state file and the text of
    [JSON.stringify(state)]; the only directory it may create is the one of
    the state file; every other file keeps its content, and after a call that
    returns the state file holds that text. *)
Theorem writeState_touches_only_state_file state fs :
  let result := writeState config dirname JSON_stringify state fs in
  let fs' := snd (fst result) in
  (forall p d, In (p, d) (file_writes (snd result)) ->
     p = stateFilePath config /\ d = JSON_stringify state)
  /\ length (file_writes (snd result)) <= 1
  /\ (forall p, In p (mkdirs (snd result)) -> p = dirname (stateFilePath config))
  /\ (forall p, p <> stateFilePath config -> files fs' !! p = files fs !! p)
  /\ (fst (fst result) = Returns tt ->
      files fs' !! stateFilePath config = Some (JSON_stringify state)).
Proof.
  unfold_fs.
  cases_fs; repeat split; try (intros; cbn in *; intuition congruence);
    try (cbn; lia);
    try (intros; cbn; try rewrite lookup_insert_ne by congruence;
         try rewrite lookup_insert_eq; reflexivity).
Qed.

(** [readLastState] writes no file: it never calls [fs.writeFile], the files
    and the refused paths are as before, no directory is lost, and the only
    directory it asks [fs.mkdir] for is the one of the state file. *)
Theorem readLastState_read_only fs :
  let result := readLastState config dirname JSON_parse fs in
  let fs' := snd (fst result) in
  file_writes (snd result) = []
  /\ files fs' = files fs
  /\ denied fs' = denied fs
  /\ directories fs ⊆ directories fs'
  /\ (forall p, In p (mkdirs (snd result)) -> p = dirname (stateFilePath config)).
Proof.
  unfold_fs.
  cases_fs; repeat split; auto; try apply union_subseteq_r;
    intros p Hin; cbn in Hin; intuition congruence.
Qed.

Lemma elem_of_created (p d : string) (dirs : gset string) :
  p ∈ {[d]} ∪ dirs <-> p = d \/ p ∈ dirs.
Proof. rewrite elem_of_union, elem_of_singleton. reflexivity. Qed.


End StorageFrame.

Lemma readLastState_throws_witness :
  Storage.is_ENOENT (Storage.errno "EACCES" "/data/lastState.json") = false
  /\ last (snd (Storage.readLastState Samples.config Samples.dirname Samples.JSON_parse
                  Samples.locked_file_system))
     = Some (Storage.Console Js.ErrorLevel
               [Js.Text ("Error reading state file " +:+ Js.stateFilePath Samples.config
                         +:+ ":");
                Js.Value (Storage.errno "EACCES" "/data/lastState.json")]).
Proof.
  apply (readLastState_throws Samples.config Samples.dirname Samples.JSON_parse
           Samples.locked_file_system (Storage.errno "EACCES" "/data/lastState.json")).
  vm_compute. reflexivity.
Defined.

Lemma writeState_throws_witness :
  last (snd (Storage.writeState Samples.config Samples.dirname Samples.JSON_stringify
               Samples.state Samples.locked_file_system))
  = Some (Storage.Console Js.ErrorLevel
            [Js.Text ("Error writing state file " +:+ Js.stateFilePath Samples.config
                      +:+ ":");
             Js.Value (Storage.errno "EACCES" "/data/lastState.json")])
  /\ ~ In (Storage.Console Js.LogLevel
             [Js.Text ("State successfully written to "
                       +:+ Js.stateFilePath Samples.config)])
          (snd (Storage.writeState Samples.config Samples.dirname Samples.JSON_stringify
                  Samples.state Samples.locked_file_system)).
Proof.
  apply (writeState_throws Samples.config Samples.dirname Samples.JSON_stringify
           Samples.state Samples.locked_file_system
           (Storage.errno "EACCES" "/data/lastState.json")).
  vm_compute. reflexivity.
Defined.


(** ** The fetcher *)

Section FetcherFacts.
Import Js Eff Fetcher.
Variable config : Config.
Variable fetch : string -> Completion Response.

(** [fetchJsonData] returns the parsed body of a response that is [ok]; a
    response that is not [ok] is the error [Failed to fetch JSON: <status>
    <statusText>], and a rejection of [fetch] or of [response.json()] is
    thrown on as it is, not wrapped. *)
Theorem fetchJsonData_outcome :
  fst (fst (fetchJsonData config fetch tt))
  = match fetch (jsonUrl config) with
    | Throws error => Throws error
    | Returns response =>
        if ok response then json response
        else Throws (new_Error ("Failed to fetch JSON: " +:+ pretty (status response)
                                +:+ " " +:+ statusText response))
    end.
Proof.
  unfold fetchJsonData, bind, try_catch, console, emit, settle, throw, ret. cbn.
  destruct (fetch (jsonUrl config)) as [response|error]; cbn; [|reflexivity].
  destruct (ok response); cbn; [|reflexivity].
  destruct (json response); reflexivity.
Qed.

(** Each call makes one request, to the configured URL, whatever comes of
    it (there is no retry); and it writes to [console.error] exactly when it
    throws, once, the error it throws. *)
Theorem fetchJsonData_single_request :
  let result := fetchJsonData config fetch tt in
  requests (snd result) = [jsonUrl config]
  /\ error_logs (snd result)
     = match fst (fst result) with
       | Returns _ => []
       | Throws error =>
           [[Text ("Error fetching JSON data from " +:+ jsonUrl config +:+ ":");
             Value error]]
       end.
Proof.
  unfold fetchJsonData, bind, try_catch, console, emit, settle, throw, ret. cbn.
  destruct (fetch (jsonUrl config)) as [response|error]; cbn; [|split; reflexivity].
  destruct (ok response); cbn; [|split; reflexivity].
  destruct (json response); split; reflexivity.
Qed.

End FetcherFacts.

(** ** The configuration *)

Section ConfigFacts.
Import Js Eff ConfigLoader.
Variable env : gmap string string.
Variable projectRoot : string.
Variable resolve : string -> string -> string.

Lemma getEnvVar_required key :
  getEnvVar env key true
  = if is_set env key then Returns (default "" (env !! key))
    else Throws (new_Error ("Missing required environment variable: " +:+ key)).
Proof. unfold getEnvVar, is_set. destruct (truthy (env !! key)); reflexivity. Qed.

Lemma getEnvVar_optional key :
  getEnvVar env key false = Returns (or_else (default "" (env !! key)) "").
Proof.
  unfold getEnvVar, or_else. cbn.
  destruct (env !! key) as [v|]; cbn; [|reflexivity].
  destruct v; reflexivity.
Qed.

Lemma is_set_value key :
  is_set env key = true ->
  exists v, env !! key = Some v /\ v <> "" /\ default "" (env !! key) = v.
Proof.
  unfold is_set. destruct (env !! key) as [v|]; cbn; [|discriminate].
  intros H. exists v. repeat split. intros ->. discriminate.
Qed.

Lemma or_else_empty s : or_else s "" = s.
Proof. unfold or_else. destruct s; reflexivity. Qed.

(** The configuration loads exactly when the five required variables are
    set to non-empty values; otherwise the module throws before it logs
    anything, and the error names the first of them, in the order the object
    literal reads them, that is missing or empty. *)
Theorem config_outcome :
  match find (fun key => negb (is_set env key)) required_variables with
  | Some key =>
      config env projectRoot resolve tt
      = (Throws (new_Error ("Missing required environment variable: " +:+ key)), tt, [])
  | None =>
      exists loaded, fst (fst (config env projectRoot resolve tt)) = Returns loaded
  end.
Proof.
  unfold config, required_variables, bind, settle, emit, ret. cbn [find].
  rewrite !getEnvVar_required, !getEnvVar_optional.
  destruct (is_set env "JSON_URL"); cbn; [|reflexivity].
  destruct (is_set env "OPENAI_API_KEY"); cbn; [|reflexivity].
  destruct (is_set env "TELEGRAM_BOT_TOKEN"); cbn; [|reflexivity].
  destruct (is_set env "TELEGRAM_CHAT_ID"); cbn; [|reflexivity].
  destruct (is_set env "CHECK_INTERVAL_CRON"); cbn; [|reflexivity].
  eexists; reflexivity.
Qed.

(** The fields of a configuration that loaded. *)
Lemma config_fields loaded :
  fst (fst (config env projectRoot resolve tt)) = Returns loaded ->
  loaded
  = {| jsonUrl := default "" (env !! "JSON_URL");
       openaiApiKey := default "" (env !! "OPENAI_API_KEY");
       openaiModelName := or_else (default "" (env !! "OPENAI_MODEL_NAME")) "gpt-4o-mini";
       openaiCustomPromptContext := default "" (env !! "OPENAI_CUSTOM_PROMPT_CONTEXT");
       telegramBotToken := default "" (env !! "TELEGRAM_BOT_TOKEN");
       telegramChatId := default "" (env !! "TELEGRAM_CHAT_ID");
       checkIntervalCron := default "" (env !! "CHECK_INTERVAL_CRON");
       telegramNotifyOnStart :=
         String.eqb (toLowerCase (default "" (env !! "TELEGRAM_NOTIFY_ON_START"))) "true";
       stateFilePath :=
         resolve projectRoot
           (or_else (default "" (env !! "STATE_FILE_PATH")) "./lastState.json") |}
  /\ Forall (fun key => is_set env key = true) required_variables.
Proof.
  unfold config, required_variables, bind, settle, emit, ret.
  rewrite !getEnvVar_required, !getEnvVar_optional.
  destruct (is_set env "JSON_URL") eqn:H1; cbn; [|discriminate].
  destruct (is_set env "OPENAI_API_KEY") eqn:H2; cbn; [|discriminate].
  destruct (is_set env "TELEGRAM_BOT_TOKEN") eqn:H3; cbn; [|discriminate].
  destruct (is_set env "TELEGRAM_CHAT_ID") eqn:H4; cbn; [|discriminate].
  destruct (is_set env "CHECK_INTERVAL_CRON") eqn:H5; cbn; [|discriminate].
  intros H. injection H as <-. rewrite !or_else_empty.
  split; [reflexivity|]. repeat constructor; assumption.
Qed.

(** A configuration that loaded holds the values of the environment: the
    five required ones, none of them empty; the model name, [gpt-4o-mini]
    when the variable is unset or empty; the state file path, resolved
    against the project root, [./lastState.json] when unset or empty; and the
    start-up notification is on exactly when the variable is [true] in any
    letter case. *)
Theorem config_values loaded :
  fst (fst (config env projectRoot resolve tt)) = Returns loaded ->
  env !! "JSON_URL" = Some (jsonUrl loaded) /\ jsonUrl loaded <> ""
  /\ env !! "OPENAI_API_KEY" = Some (openaiApiKey loaded) /\ openaiApiKey loaded <> ""
  /\ env !! "TELEGRAM_BOT_TOKEN" = Some (telegramBotToken loaded)
  /\ telegramBotToken loaded <> ""
  /\ env !! "TELEGRAM_CHAT_ID" = Some (telegramChatId loaded)
  /\ telegramChatId loaded <> ""
  /\ env !! "CHECK_INTERVAL_CRON" = Some (checkIntervalCron loaded)
  /\ checkIntervalCron loaded <> ""
  /\ openaiModelName loaded
     = or_else (default "" (env !! "OPENAI_MODEL_NAME")) "gpt-4o-mini"
  /\ openaiCustomPromptContext loaded = default "" (env !! "OPENAI_CUSTOM_PROMPT_CONTEXT")
  /\ telegramNotifyOnStart loaded
     = String.eqb (toLowerCase (default "" (env !! "TELEGRAM_NOTIFY_ON_START"))) "true"
  /\ stateFilePath loaded
     = resolve projectRoot (or_else (default "" (env !! "STATE_FILE_PATH")) "./lastState.json").
Proof.
  intros H. destruct (config_fields loaded H) as [-> Hset]. cbn.
  unfold required_variables in Hset.
  repeat match goal with
         | H : Forall _ (_ :: _) |- _ => apply Forall_cons in H as [? H]
         end.
  repeat match goal with
         | H : is_set env ?k = true |- _ =>
             destruct (is_set_value k H) as (? & ? & ? & ->); clear H
         end.
  repeat split; assumption.
Qed.

(** A configuration that loaded has both Telegram credentials, so the
    notifier it configures is never Disabled: its first use constructs the
    client. *)
Theorem config_has_credentials loaded construct :
  fst (fst (config env projectRoot resolve tt)) = Returns loaded ->
  Notifier.credentials_present loaded = true
  /\ Notifier.client_state
       (snd (fst (Notifier.getBotInstance loaded construct Notifier.initial)))
     <> Notifier.Disabled.
Proof.
  intros H.
  assert (Hc : Notifier.credentials_present loaded = true).
  { destruct (config_fields loaded H) as [-> Hset].
    unfold required_variables in Hset.
    repeat match goal with
           | H : Forall _ (_ :: _) |- _ => apply Forall_cons in H as [? H]
           end.
    unfold Notifier.credentials_present. cbn.
    repeat match goal with
           | H : is_set env ?k = true |- _ =>
               destruct (is_set_value k H) as (? & ? & ? & ->); clear H
           end.
    repeat match goal with
           | H : ?v <> "" |- _ => destruct v; [congruence|clear H]
           end.
    reflexivity. }
  split; [exact Hc|].
  unfold Notifier.getBotInstance, bind, try_catch, get, put, Notifier.assign,
    Notifier.console, emit, settle, ret.
  cbn. rewrite Hc. cbn.
  destruct (construct (telegramBotToken loaded)); cbn; discriminate.
Qed.

End ConfigFacts.

Lemma config_values_witness :
  Samples.environment !! "JSON_URL" = Some (Js.jsonUrl Samples.loaded)
  /\ Js.jsonUrl Samples.loaded <> ""
  /\ Samples.environment !! "OPENAI_API_KEY" = Some (Js.openaiApiKey Samples.loaded)
  /\ Js.openaiApiKey Samples.loaded <> ""
  /\ Samples.environment !! "TELEGRAM_BOT_TOKEN" = Some (Js.telegramBotToken Samples.loaded)
  /\ Js.telegramBotToken Samples.loaded <> ""
  /\ Samples.environment !! "TELEGRAM_CHAT_ID" = Some (Js.telegramChatId Samples.loaded)
  /\ Js.telegramChatId Samples.loaded <> ""
  /\ Samples.environment !! "CHECK_INTERVAL_CRON"
     = Some (Js.checkIntervalCron Samples.loaded)
  /\ Js.checkIntervalCron Samples.loaded <> ""
  /\ Js.openaiModelName Samples.loaded
     = ConfigLoader.or_else (default "" (Samples.environment !! "OPENAI_MODEL_NAME"))
         "gpt-4o-mini"
  /\ Js.openaiCustomPromptContext Samples.loaded
     = default "" (Samples.environment !! "OPENAI_CUSTOM_PROMPT_CONTEXT")
  /\ Js.telegramNotifyOnStart Samples.loaded
     = String.eqb
         (ConfigLoader.toLowerCase
            (default "" (Samples.environment !! "TELEGRAM_NOTIFY_ON_START"))) "true"
  /\ Js.stateFilePath Samples.loaded
     = Samples.resolve "/app"
         (ConfigLoader.or_else (default "" (Samples.environment !! "STATE_FILE_PATH"))
            "./lastState.json").
Proof.
  apply (config_values Samples.environment "/app" Samples.resolve Samples.loaded).
  vm_compute. reflexivity.
Defined.

Lemma config_has_credentials_witness :
  Notifier.credentials_present Samples.loaded = true
  /\ Notifier.client_state
       (snd (fst (Notifier.getBotInstance Samples.loaded Samples.construct_ok
                    Notifier.initial)))
     <> Notifier.Disabled.
Proof.
  apply (config_has_credentials Samples.environment "/app" Samples.resolve Samples.loaded
           Samples.construct_ok).
  vm_compute. reflexivity.
Defined.

(** ** The cycle: how much it does *)

Section CycleBounds.
Import Js Orchestrator.
Variable diffJson : JsValue -> JsValue -> list Change.

Ltac error_notification :=
  match goal with
  | |- context [notify ?w ?m] => destruct (notify w m) as [[]|?]
  end; cbn; lia.

(** Whatever the collaborators do, one call of [checkJsonUpdates] writes the
    state at most once, asks for at most one summary, sends at most two
    notifications (that of the change and that of an error), and makes at
    most six collaborator calls in all. *)
Theorem checkJsonUpdates_call_bounds (w : World) (g : bool) :
  let trace := snd (run w (checkJsonUpdates diffJson) g) in
  length (writes trace) <= 1
  /\ length (summaries trace) <= 1
  /\ length (notifications trace) <= 2
  /\ length (List.filter is_collaborator_call trace) <= 6.
Proof.
  cbv zeta. unfold checkJsonUpdates, cycle_body, cycle_handler, inline,
    Comparer.compareJson, Eff.bind, Comparer.log, Eff.emit, Eff.ret.
  destruct g; [cbn; lia|].
  cbn.
  destruct (fetch w) as [current|e]; cbn; [|error_notification].
  destruct (is_object current); cbn; [|error_notification].
  destruct (readLast w) as [last|e]; cbn; [|error_notification].
  destruct (is_null last); cbn.
  { destruct (write w current) as [[]|e]; cbn; [lia|error_notification]. }
  destruct (String.eqb (Comparer.stringify last) (Comparer.stringify current)); cbn;
    [lia|].
  destruct (filter (fun part => is_actual part = true) (diffJson last current))
    as [|part parts] eqn:Hf; [cbn; lia|].
  cbn -[filter].
  assert (Hff : filter (fun c => is_actual c = true) (part :: parts) = part :: parts).
  { rewrite <- Hf. apply list_filter_filter_l. auto. }
  rewrite !Hff. cbn.
  destruct (summarize w (part :: parts)) as [summary|e]; cbn; [|error_notification].
  destruct (isWorthToReport summary); cbn.
  - match goal with
    | |- context [notify w ?m] => destruct (notify w m) as [[]|?] eqn:Hn
    end; cbn; [|error_notification].
    destruct (write w current) as [[]|e]; cbn; [lia|error_notification].
  - destruct (write w current) as [[]|e]; cbn; [lia|error_notification].
Qed.

(** The [catch] block attempts one notification, and its text is bounded:
    the first 500 code units of the error text, escaped (at most doubled),
    the truncation marker and the frame of the code block, 1053 code units at
    most. *)
Theorem cycle_handler_notification_bounded (w : World) (error : Thrown) (g : bool) :
  exists text,
    notifications (snd (run w (cycle_handler error) g)) = [text]
    /\ String.length text <= 1053.
Proof.
  unfold cycle_handler.
  generalize (Nat.ltb 500 (String.length (error_text error))). intros long. cbn.
  match goal with |- context [notify w ?m] => exists m end.
  split.
  - match goal with |- context [notify w ?m] => destruct (notify w m) as [[]|?] end;
      reflexivity.
  - rewrite !length_app_string.
    pose proof (replace_all_length (substring0 500 (error_text error)) None) as [_ Hesc].
    pose proof (length_substring0 500 (error_text error)) as Hsub.
    unfold Escape.escapeMarkdownV2.
    destruct long; cbn [String.length nl]; lia.
Qed.

(** A fetch that yields something that is not an object (a number, a string,
    a boolean, [null]) ends the cycle before the stored state is read:
    nothing is read, written or summarized, and one notification, of the
    error, is attempted. *)
Theorem checkJsonUpdates_rejects_non_object (w : World) (current : JsValue) :
  fetch w = Returns current ->
  is_object current = false ->
  let trace := snd (run w (checkJsonUpdates diffJson) false) in
  ~ In ReadLast trace /\ writes trace = [] /\ summaries trace = []
  /\ exists text, notifications trace = [text].
Proof.
  intros Hfetch Hobj. cbv zeta. unfold checkJsonUpdates, cycle_body. cbn.
  rewrite Hfetch. cbn. rewrite Hobj. cbn.
  match goal with |- context [notify w ?m] => destruct (notify w m) as [[]|e] end;
    cbn; (split; [intros H; repeat (destruct H as [H|H]; [discriminate|]); exact H|]);
    repeat split; eauto.
Qed.

End CycleBounds.

Lemma checkJsonUpdates_rejects_non_object_witness :
  ~ In Orchestrator.ReadLast
      (snd (Orchestrator.run Samples.scalar_world
              (Orchestrator.checkJsonUpdates Samples.whole_document_diff) false))
  /\ Orchestrator.writes
       (snd (Orchestrator.run Samples.scalar_world
               (Orchestrator.checkJsonUpdates Samples.whole_document_diff) false)) = []
  /\ Orchestrator.summaries
       (snd (Orchestrator.run Samples.scalar_world
               (Orchestrator.checkJsonUpdates Samples.whole_document_diff) false)) = []
  /\ exists text,
       Orchestrator.notifications
         (snd (Orchestrator.run Samples.scalar_world
                 (Orchestrator.checkJsonUpdates Samples.whole_document_diff) false))
       = [text].
Proof.
  exact (checkJsonUpdates_rejects_non_object Samples.whole_document_diff
           Samples.scalar_world (Js.JNumber 1) eq_refl eq_refl).
Defined.

(** ** Start-up *)

Section MainFacts.
Import Js Eff Main.
Variable config : Config.
Variable diffJson : JsValue -> JsValue -> list Change.
Variable w : Orchestrator.World.
Variable scheduleJob : string -> option Job.

Lemma first_check_returns :
  exists trace,
    Orchestrator.run w (Orchestrator.checkJsonUpdates diffJson) false
    = (Returns tt, false, trace).
Proof.
  pose proof (checkJsonUpdates_releases_guard diffJson w) as Hg.
  assert (Hr : fst (fst (Orchestrator.run w (Orchestrator.checkJsonUpdates diffJson) false))
               = Returns tt).
  { unfold Orchestrator.checkJsonUpdates.
    cbn -[Orchestrator.finally Orchestrator.try_catch Orchestrator.cycle_body
          Orchestrator.cycle_handler Orchestrator.cycle_release].
    rewrite run_finally, run_try_catch.
    destruct (Orchestrator.run w (Orchestrator.cycle_body diffJson) true)
      as [[[[]|e] g1] t1].
    - cbn. reflexivity.
    - destruct (cycle_handler_returns w e g1) as [t ->]. cbn. reflexivity. }
  destruct (Orchestrator.run w (Orchestrator.checkJsonUpdates diffJson) false)
    as [[r g] t].
  cbn in Hg, Hr. subst. eauto.
Qed.

Lemma collaborator_calls_app a b :
  collaborator_calls (a ++ b) = collaborator_calls a ++ collaborator_calls b.
Proof. apply omap_app. Qed.

Lemma scheduled_app a b : scheduled (a ++ b) = scheduled a ++ scheduled b.
Proof. apply omap_app. Qed.

Lemma collaborator_calls_seen t :
  collaborator_calls (map Seen t) = List.filter Orchestrator.is_collaborator_call t.
Proof.
  induction t as [|o t IH]; [reflexivity|].
  cbn. unfold collaborator_calls in *. cbn.
  destruct (Orchestrator.is_collaborator_call o); cbn; now rewrite IH.
Qed.

Lemma scheduled_seen t : scheduled (map Seen t) = [].
Proof. induction t as [|o t IH]; [reflexivity|exact IH]. Qed.

Lemma exec_notification text g :
  exec w (Orchestrator.await (Orchestrator.SendTelegramNotification text)) g
  = (Orchestrator.notify w text, g, [Seen (Orchestrator.Notified text)]).
Proof.
  unfold exec. cbn. destruct (Orchestrator.notify w text); reflexivity.
Qed.

Lemma exec_first_check :
  exec w (Orchestrator.checkJsonUpdates diffJson) false
  = (Returns tt, false,
     map Seen (snd (Orchestrator.run w (Orchestrator.checkJsonUpdates diffJson) false))).
Proof.
  destruct first_check_returns as [trace Hrun]. unfold exec. now rewrite Hrun.
Qed.

(** The start-up notification and the first check never make [main] reject:
    [main] resolves exactly when [scheduleJob] hands back a job, and when it
    hands back [null] (a cron expression the scheduler rejects) [main]
    rejects with the [TypeError] of [job.nextInvocation()]; either way the
    guard is left released. *)
Theorem main_outcome :
  fst (fst (main config diffJson w scheduleJob false))
  = match scheduleJob (checkIntervalCron config) with
    | Some _ => Returns tt
    | None => Throws (Notifier.read_of_nullish Notifier.Null "nextInvocation")
    end
  /\ snd (fst (main config diffJson w scheduleJob false)) = false.
Proof.
  unfold main, bind, try_catch, console_log, emit, throw, ret.
  destruct (telegramNotifyOnStart config); cbn -[exec Orchestrator.checkJsonUpdates].
  - rewrite exec_notification.
    destruct (Orchestrator.notify w (startupMessage config)) as [[]|e];
      cbn -[exec Orchestrator.checkJsonUpdates];
      rewrite exec_first_check; cbn;
      destruct (scheduleJob (checkIntervalCron config)); split; reflexivity.
  - rewrite exec_first_check. cbn.
    destruct (scheduleJob (checkIntervalCron config)); split; reflexivity.
Qed.

(** [main] registers one job, with the configured cron expression, and only
    after the first check is over: before it come the start-up notification
    (exactly when [telegramNotifyOnStart] is set) and then the calls of one
    complete check; after it [main] calls no collaborator. *)
Theorem main_checks_then_schedules :
  exists before after,
    snd (main config diffJson w scheduleJob false)
    = before ++ ScheduleJob (checkIntervalCron config) :: after
    /\ collaborator_calls before
       = (if telegramNotifyOnStart config
          then [Orchestrator.Notified (startupMessage config)] else [])
         ++ List.filter Orchestrator.is_collaborator_call
              (snd (Orchestrator.run w (Orchestrator.checkJsonUpdates diffJson) false))
    /\ scheduled before = []
    /\ collaborator_calls after = []
    /\ scheduled after = [].
Proof.
  unfold main, bind, try_catch, console_log, emit, throw, ret.
  set (trace := snd (Orchestrator.run w (Orchestrator.checkJsonUpdates diffJson) false)).
  destruct (scheduleJob (checkIntervalCron config)) as [job|];
    (destruct (telegramNotifyOnStart config); cbn -[exec Orchestrator.checkJsonUpdates];
     [rewrite exec_notification;
      destruct (Orchestrator.notify w (startupMessage config)) as [[]|e];
      cbn -[exec Orchestrator.checkJsonUpdates]|]);
    rewrite exec_first_check; fold trace; cbn;
    match goal with
    | |- context [?a :: ?b :: ?c :: map Seen trace ++ ?d :: ScheduleJob _ :: ?rest] =>
        exists ([a; b; c] ++ map Seen trace ++ [d]), rest
    | |- context [?a :: map Seen trace ++ ?d :: ScheduleJob _ :: ?rest] =>
        exists ([a] ++ map Seen trace ++ [d]), rest
    end;
    (split; [cbn; rewrite <- app_assoc; reflexivity|]);
    rewrite !collaborator_calls_app, !scheduled_app, collaborator_calls_seen,
      scheduled_seen;
    cbn; rewrite app_nil_r; repeat split; reflexivity.
Qed.

End MainFacts.
